(** * obiDictyMutants: the Dictybase mutant collection

    A shallow embedding of [_bioinformatics/obiDictyMutants.py] (Python 2):
    the record constructor [DictyMutant.__init__], the merge
    [DictyMutants.download_mutants] and the accessors of [DictyMutants].

    Byte strings ([str]) are [string]; lists are [list]; [set] is [gset];
    [defaultdict(set)] is a [gmap] read with the empty set as default.  An
    exception is a value of [exn], carried by [result]. *)

From Equations Require Import Equations.
From Stdlib Require Import Ascii String.
From stdpp Require Import gmap strings list sorting.

Open Scope string_scope.

(** ** Exceptions *)

Inductive exn : Set :=
| IndexError   (* list index out of range *)
| KeyError.    (* key absent from a dict *)

Inductive result (A : Type) : Type :=
| Ok (a : A)
| Raise (e : exn).
Arguments Ok {A} a.
Arguments Raise {A} e.

(** Sequencing: [x ← m; k] runs [m], and runs [k] unless [m] raised. *)
#[global] Instance result_bind : MBind result := λ A B k m,
  match m with
  | Ok a => k a
  | Raise e => Raise e
  end.

(** [[f(x) for x in l]]: the elements are evaluated left to right and the
    first exception leaves the comprehension. *)
Fixpoint comprehension {A B} (f : A → result B) (l : list A) : result (list B) :=
  match l with
  | [] => Ok []
  | x :: l' => y ← f x ; ys ← comprehension f l' ; Ok (y :: ys)
  end.

(** ** [str.split(sep)] and [sep.join(l)] *)

(** [strip_prefix p s] is [Some r] when [s = p ++ r]. *)
Fixpoint strip_prefix (p s : string) : option string :=
  match p, s with
  | EmptyString, _ => Some s
  | String a p', String b s' => if decide (a = b) then strip_prefix p' s' else None
  | String _ _, EmptyString => None
  end.

(** The leftmost occurrence of [sep] in [s]: what stands before it and what
    stands after it. *)
Fixpoint find (sep s : string) : option (string * string) :=
  match strip_prefix sep s with
  | Some post => Some (EmptyString, post)
  | None =>
      match s with
      | EmptyString => None
      | String c s' =>
          match find sep s' with
          | Some (pre, post) => Some (String c pre, post)
          | None => None
          end
      end
  end.

Lemma strip_prefix_Some p s r : strip_prefix p s = Some r → s = p +:+ r.
Proof.
  revert s; induction p as [|a p IH]; intros [|b s]; cbn [strip_prefix];
    try (by intros [= <-]).
  case_decide; [|done]. intros Hr%IH. by subst.
Qed.

Lemma find_Some sep s pre post :
  find sep s = Some (pre, post) → s = pre +:+ sep +:+ post.
Proof.
  revert pre post; induction s as [|c s IH]; intros pre post; cbn [find].
  - destruct (strip_prefix sep "") eqn:E; [|done].
    intros [= <- <-]. by apply strip_prefix_Some in E.
  - destruct (strip_prefix sep (String c s)) eqn:E.
    + intros [= <- <-]. by apply strip_prefix_Some in E.
    + destruct (find sep s) as [[pre' post']|] eqn:F; [|done].
      intros [= <- <-]. by rewrite (IH _ _ eq_refl) at 1.
Qed.

Lemma length_app_string s1 s2 :
  String.length (s1 +:+ s2) = String.length s1 + String.length s2.
Proof.
  induction s1 as [|c s1 IH]; [done|].
  change (String c s1 +:+ s2) with (String c (s1 +:+ s2)). simpl. by rewrite IH.
Qed.

(** A value together with the equation that names it, for the termination
    argument of [split]. *)
Definition inspect {A} (a : A) : {b : A | a = b} := exist _ a eq_refl.

(** [s.split(sep)] cuts [s] at the occurrences of [sep] found from the left,
    one after the end of the other.  An empty separator raises [ValueError]
    in Python; the program passes the literals ["\t"] and [" | "] only, and
    the first clause is never reached. *)
Equations? split (sep s : string) : list string by wf (String.length s) lt :=
  split EmptyString s := [s];
  split (String c sep') s with inspect (find (String c sep') s) => {
    | exist _ (Some (pre, post)) _ := pre :: split (String c sep') post;
    | exist _ None _ := [s] }.
Proof.
  apply find_Some in e. subst s.
  rewrite !length_app_string. simpl. lia.
Qed.

(** [sep.join(l)] *)
Definition join (sep : string) (l : list string) : string := String.concat sep l.

Definition TAB : string := String "009"%char EmptyString.
Definition BAR : string := " | ".

(** ** [class DictyMutant] *)

Record DictyMutant : Set := mkDictyMutant {
  name : string;
  descriptor : string;
  genes : list string;
  phenotypes : list string;
  null : bool;
  overexp : bool;
  multiple : bool;
  develop : bool;
  other : bool
}.

(** [l[i]] *)
Definition getitem_list {A} (l : list A) (i : nat) : result A :=
  match l !! i with
  | Some x => Ok x
  | None => Raise IndexError
  end.

(** [DictyMutant.__init__(self, mutant_entry)] *)
Definition DictyMutant_init (mutant_entry : string) : result DictyMutant :=
  let mutant := split TAB mutant_entry in
  f0 ← getitem_list mutant 0 ;
  f1 ← getitem_list mutant 1 ;
  f2 ← getitem_list mutant 2 ;
  f3 ← getitem_list mutant 3 ;
  Ok {| name := f0;
        descriptor := f1;
        genes := split BAR f2;
        phenotypes := split BAR f3;
        null := false;
        overexp := false;
        multiple := false;
        develop := false;
        other := false |}.

(** Attribute assignments [mutant.null = True] and the like. *)
Definition set_null (m : DictyMutant) (b : bool) : DictyMutant :=
  mkDictyMutant (name m) (descriptor m) (genes m) (phenotypes m)
    b (overexp m) (multiple m) (develop m) (other m).
Definition set_overexp (m : DictyMutant) (b : bool) : DictyMutant :=
  mkDictyMutant (name m) (descriptor m) (genes m) (phenotypes m)
    (null m) b (multiple m) (develop m) (other m).
Definition set_multiple (m : DictyMutant) (b : bool) : DictyMutant :=
  mkDictyMutant (name m) (descriptor m) (genes m) (phenotypes m)
    (null m) (overexp m) b (develop m) (other m).
Definition set_develop (m : DictyMutant) (b : bool) : DictyMutant :=
  mkDictyMutant (name m) (descriptor m) (genes m) (phenotypes m)
    (null m) (overexp m) (multiple m) b (other m).
Definition set_other (m : DictyMutant) (b : bool) : DictyMutant :=
  mkDictyMutant (name m) (descriptor m) (genes m) (phenotypes m)
    (null m) (overexp m) (multiple m) (develop m) b.

(** ** Objects, and dicts keyed by them

    [DictyMutant] defines neither [__eq__] nor [__hash__]: two instances are
    equal as dict keys only when they are the same object.  An object is
    known by its identity, a [ref]; the dict [{x: x for x in _mutants}] holds
    each object as key and as value, so one entry is the identity of the
    object with its attributes. *)

Abbreviation ref := nat.

(** What a caller can pass where a key is expected: an object, or a [str]. *)
Inductive value : Set :=
| VObj (r : ref)
| VStr (s : string).

(** The entries of the dict, in the order of its hash table. *)
Definition pydict := list (ref * DictyMutant).

(** A Python 2 dict lists its keys in the order of its hash table, which for
    objects hashed by identity depends on where the interpreter allocated
    them.  The program fixes nothing about it; it is an interface of the
    interpreter here: the entries inserted, in insertion order, give the
    entries in table order, the same entries. *)
Class DictOrder := {
  table_order : list (ref * DictyMutant) → list (ref * DictyMutant);
  table_order_perm : ∀ l, table_order l ≡ₚ l
}.

(** Two interpreters: one whose table lists the keys as they were inserted,
    one whose table lists them the other way round. *)
Definition insertion_order : DictOrder :=
  {| table_order := id; table_order_perm := λ l, reflexivity l |}.

Definition reverse_order : DictOrder :=
  {| table_order := reverse; table_order_perm := reverse_Permutation |}.

(** [d[r]] for an object [r] *)
Fixpoint dict_lookup (d : pydict) (r : ref) : option DictyMutant :=
  match d with
  | [] => None
  | (r', m) :: d' => if decide (r = r') then Some m else dict_lookup d' r
  end.

(** [d[k]]: a [str] is never equal to a [DictyMutant] object. *)
Definition getitem (d : pydict) (k : value) : result DictyMutant :=
  match k with
  | VObj r =>
      match dict_lookup d r with
      | Some m => Ok m
      | None => Raise KeyError
      end
  | VStr _ => Raise KeyError
  end.

(** [d.keys()] *)
Definition keys (d : pydict) : list ref := d.*1.

(** [sorted(X)] for a set of [str]: the elements in ascending order of the
    byte-wise comparison of [str].  The elements of a set are distinct and
    the order is total, so the result does not depend on the order in which
    the set hands them over, nor on the sorting algorithm. *)
Definition sorted (X : gset string) : list string :=
  merge_sort String.le (elements X).

(** [reduce(list.__add__, ls, [])] *)
Definition reduce_add {A} (ls : list (list A)) : list A :=
  foldl (λ acc l, (acc ++ l)%list) [] ls.

(** [dgm[key].add(mutant)] on a [defaultdict(set)] *)
Definition defaultdict_add (dgm : gmap string (gset ref)) (key : string) (mutant : ref)
  : gmap string (gset ref) :=
  <[key := default ∅ (dgm !! key) ∪ {[mutant]}]> dgm.

(** [dgm[key]] on a [defaultdict(set)], as a read *)
Definition defaultdict_get (dgm : gmap string (gset ref)) (key : string) : gset ref :=
  default ∅ (dgm !! key).

(** ** Reading a file

    A file is the [str] of its content; [open(file)] reads it as it is (no
    newline translation, as on the platform of the program). *)

Definition LF : ascii := "010"%char.
Definition CR : ascii := "013"%char.

(** [f.readline()]: the text up to the first line feed, the line feed
    included, and what the file object has left to read. *)
Fixpoint readline (data : string) : string * string :=
  match data with
  | EmptyString => (EmptyString, EmptyString)
  | String c data' =>
      if decide (c = LF) then (String c EmptyString, data')
      else let '(line, rest) := readline data' in (String c line, rest)
  end.

(** [s.splitlines()] on a [str]: a line ends at a line feed, at a carriage
    return, or at a carriage return followed by a line feed; the line breaks
    are dropped, and no empty line is made after the last line break. *)
Fixpoint splitlines (s : string) : list string :=
  match s with
  | EmptyString => []
  | String c s' =>
      if decide (c = LF) then EmptyString :: splitlines s'
      else if decide (c = CR) then
        match s' with
        | EmptyString => [EmptyString]
        | String c' s'' =>
            if decide (c' = LF) then EmptyString :: splitlines s''
            else EmptyString :: splitlines s'
        end
      else
        match splitlines s' with
        | [] => [String c EmptyString]
        | line :: lines => String c line :: lines
        end
  end.

(** ** [class DictyMutants] *)

Module DictyMutants.

(** [load_mutants(self, file)], from the content of the file: the first line
    is read and dropped, the rest is cut into lines. *)
Definition load_mutants (file : string) : list string :=
  let '(data_header, data) := readline file in
  splitlines data.

Section methods.
Context `{DictOrder}.

(** [set([DictyMutant(line).name for line in lines])] *)
Definition the_names (lines : list string) : result (gset string) :=
  l ← comprehension (λ line, m ← DictyMutant_init line; Ok (name m)) lines;
  Ok (list_to_set l).

(** The body of [for mutant in _mutants: ...] *)
Definition tag (the_nulls the_overexps the_multiples the_develops the_others : gset string)
    (mutant : DictyMutant) : DictyMutant :=
  let mutant := if decide (name mutant ∈ the_nulls) then set_null mutant true else mutant in
  let mutant := if decide (name mutant ∈ the_overexps) then set_overexp mutant true else mutant in
  let mutant := if decide (name mutant ∈ the_multiples) then set_multiple mutant true else mutant in
  let mutant := if decide (name mutant ∈ the_develops) then set_develop mutant true else mutant in
  let mutant := if decide (name mutant ∈ the_others) then set_other mutant true else mutant in
  mutant.

(** [download_mutants(self)], from the six lists that [load_mutants]
    returns (the lines of each file after its header).  The object built
    from the [i]-th line of [all_mutants] has identity [i]; the objects
    built from the lines of the other files are dropped once their name is
    read. *)
Definition download_mutants
    (all_mutants null_mutants overexp_mutants multiple_mutants
     develop_mutants other_mutants : list string) : result pydict :=
  _mutants ← comprehension DictyMutant_init all_mutants;
  the_nulls ← the_names null_mutants;
  the_overexps ← the_names overexp_mutants;
  the_multiples ← the_names multiple_mutants;
  the_develops ← the_names develop_mutants;
  the_others ← the_names other_mutants;
  let _mutants :=
    tag the_nulls the_overexps the_multiples the_develops the_others <$> _mutants in
  let final_mutants := table_order (imap (λ i x, (i, x)) _mutants) in
  Ok final_mutants.
End methods.

(** The accessors read [self._mutants]. *)
Section accessors.
Variable _mutants : pydict.

Definition mutants : list ref := keys _mutants.

Definition mutant_genes (mutant : value) : result (list string) :=
  m ← getitem _mutants mutant; Ok (genes m).

Definition mutant_phenotypes (mutant : value) : result (list string) :=
  m ← getitem _mutants mutant; Ok (phenotypes m).

Definition genes : result (list string) :=
  ls ← comprehension (λ mutant, mutant_genes (VObj mutant)) mutants;
  Ok (sorted (list_to_set (reduce_add ls))).

Definition phenotypes : result (list string) :=
  ls ← comprehension (λ mutant, mutant_phenotypes (VObj mutant)) mutants;
  Ok (sorted (list_to_set (reduce_add ls))).

Definition gene_mutants : result (gmap string (gset ref)) :=
  pairs ← comprehension
    (λ mutant, genes ← mutant_genes (VObj mutant); Ok (mutant, genes)) mutants;
  Ok (foldl (λ dgm '(mutant, genes),
             foldl (λ dgm gene, defaultdict_add dgm gene mutant) dgm genes)
        ∅ pairs).

Definition phenotype_mutants : result (gmap string (gset ref)) :=
  pairs ← comprehension
    (λ mutant, phenotypes ← mutant_phenotypes (VObj mutant); Ok (mutant, phenotypes))
    mutants;
  Ok (foldl (λ dpm '(mutant, phenotypes),
             foldl (λ dpm phenotype, defaultdict_add dpm phenotype mutant) dpm phenotypes)
        ∅ pairs).
End accessors.

End DictyMutants.

(** * Vocabulary of the properties *)

(** [id_in id lines]: [id] is the name of the record of some line of [lines]. *)
Definition id_in (id : string) (lines : list string) : Prop :=
  ∃ line m, line ∈ lines ∧ DictyMutant_init line = Ok m ∧ name m = id.

(** Every name of the store is non-empty and is the name of one entry. *)
Definition ids_unique (s : pydict) : Prop :=
  ∀ r m, (r, m) ∈ s →
    name m ≠ "" ∧ ∀ r' m', (r', m') ∈ s → name m' = name m → (r', m') = (r, m).

(** The objects [rs] are, one for one and in this order, the records of the
    lines [lines] as the store [s] holds them. *)
Definition in_file_order (lines : list string) (s : pydict) (rs : list ref) : Prop :=
  Forall2 (λ line r, ∃ m0 m, DictyMutant_init line = Ok m0 ∧
                             dict_lookup s r = Some m ∧ name m = name m0)
    lines rs.

(** What [self._mutants[r].genes] (or [.phenotypes]) reads for a key [r] of
    the store, and the empty list for another [r]. *)
Definition read (s : pydict) (field : DictyMutant → list string) (r : ref)
  : list string :=
  from_option field [] (dict_lookup s r).

(** The four attributes that the constructor reads from the line. *)
Definition fields (m : DictyMutant) : string * string * list string * list string :=
  (name m, descriptor m, genes m, phenotypes m).

(** A line of four fields. *)
Definition entry (id desc gs ps : string) : string :=
  id +:+ TAB +:+ desc +:+ TAB +:+ gs +:+ TAB +:+ ps.

(** [sep] occurs in [s]. *)
Definition occurs (sep s : string) : Prop := ∃ a b, s = a +:+ sep +:+ b.

(** The character [c] is one of the characters of [s]. *)
Fixpoint has_char (c : ascii) (s : string) : bool :=
  match s with
  | EmptyString => false
  | String c' s' => bool_decide (c' = c) || has_char c s'
  end.

(** A text without line breaks. *)
Definition one_line (s : string) : Prop := has_char LF s = false ∧ has_char CR s = false.

(** The lines [lines], each followed by the line break [eol]. *)
Definition unlines (eol : string) (lines : list string) : string :=
  foldr (λ line acc, line +:+ eol +:+ acc) EmptyString lines.

(** A line break: a line feed, or a carriage return with a line feed. *)
Definition is_eol (eol : string) : Prop :=
  eol = String LF "" ∨ eol = String CR (String LF "").

(** No entry of the index is an empty set. *)
Definition entries_inhabited (dgm : gmap string (gset ref)) : Prop :=
  ∀ g X, dgm !! g = Some X → X ≠ ∅.

(** ** Sample data *)

Definition line_G01 : string :=
  entry "DDB_G01" "foo" "cbfA" "aberrant protein localization".
Definition line_G02 : string :=
  entry "DDB_G02" "bar" "cbfA | amiB" "".
Definition line_G99 : string :=
  entry "DDB_G99" "baz" "zakA" "wild type".

Definition mutant_G01 (null : bool) : DictyMutant :=
  mkDictyMutant "DDB_G01" "foo" ["cbfA"] ["aberrant protein localization"]
    null false false false false.
Definition mutant_G02 : DictyMutant :=
  mkDictyMutant "DDB_G02" "bar" ["cbfA"; "amiB"] [""] false false false false false.

Definition store_ex : pydict := [(0, mutant_G01 true); (1, mutant_G02)].

Definition header_line : string :=
  entry "Systematic Name" "Strain Descriptor" "Associated gene(s)" "Phenotypes".
Definition line_G01_copy : string := entry "DDB_G01" "another descriptor" "" "".
Definition line_G02_more : string := line_G02 +:+ TAB +:+ "more".
Definition CRLF : string := String CR (String LF EmptyString).

(** A file with line breaks of two characters and a last line without one;
    a file with an empty line; a file that is its header. *)
Definition file_crlf : string :=
  header_line +:+ String LF "" +:+ unlines CRLF [line_G01; line_G02] +:+ line_G99.
Definition file_blank : string :=
  header_line +:+ String LF "" +:+ unlines (String LF "") [line_G01; ""].
Definition file_header : string := header_line +:+ String LF "".

(** * Properties *)

Example split_ex1 : split BAR "a | b |  | c" = ["a"; "b"; ""; "c"].
Proof. vm_compute. reflexivity. Qed.

(** ** Splitting and joining *)

Lemma split_nonempty sep s : split sep s ≠ [].
Proof. funelim (split sep s); simp split; done. Qed.

Lemma join_cons sep x l : l ≠ [] → join sep (x :: l) = x +:+ sep +:+ join sep l.
Proof. by destruct l. Qed.

Lemma join_split sep s : join sep (split sep s) = s.
Proof.
  funelim (split sep s); try done.
  rewrite join_cons by apply split_nonempty.
  match goal with IH : join _ _ = _ |- _ => rewrite IH end.
  symmetry. by apply find_Some.
Qed.

(** A string in which the separator does not occur gives one piece. *)
Lemma split_absent sep s :
  (∀ a b, s ≠ a +:+ sep +:+ b) → split sep s = [s].
Proof.
  intros Hno. funelim (split sep s); try done.
  destruct (Hno pre post). by apply find_Some.
Qed.

Lemma getitem_list_Ok {A} (l : list A) i x :
  getitem_list l i = Ok x ↔ l !! i = Some x.
Proof.
  unfold getitem_list. destruct (l !! i); [|done].
  split; by intros [= ->].
Qed.

Lemma getitem_list_Raise {A} (l : list A) i e :
  getitem_list l i = Raise e ↔ e = IndexError ∧ (length l ≤ i)%nat.
Proof.
  unfold getitem_list. destruct (l !! i) eqn:E.
  - apply lookup_lt_Some in E. split; [done|]. intros [_ ?]. lia.
  - apply lookup_ge_None in E. split; [by intros [= <-]|by intros [-> _]].
Qed.

(** The record built from a line of four fields or more. *)
Lemma DictyMutant_init_fields line f0 f1 f2 f3 rest :
  split TAB line = f0 :: f1 :: f2 :: f3 :: rest →
  DictyMutant_init line =
    Ok (mkDictyMutant f0 f1 (split BAR f2) (split BAR f3) false false false false false).
Proof. unfold DictyMutant_init. by intros ->. Qed.

Lemma DictyMutant_init_Ok line m :
  DictyMutant_init line = Ok m →
  ∃ f0 f1 f2 f3 rest,
    split TAB line = f0 :: f1 :: f2 :: f3 :: rest ∧
    m = mkDictyMutant f0 f1 (split BAR f2) (split BAR f3) false false false false false.
Proof.
  unfold DictyMutant_init.
  destruct (split TAB line) as [|f0 [|f1 [|f2 [|f3 rest]]]]; try done.
  cbn. intros [= <-]. by exists f0, f1, f2, f3, rest.
Qed.

Lemma DictyMutant_init_Raise line e :
  DictyMutant_init line = Raise e ↔ e = IndexError ∧ length (split TAB line) < 4.
Proof.
  unfold DictyMutant_init.
  destruct (split TAB line) as [|f0 [|f1 [|f2 [|f3 rest]]]] eqn:E; cbn;
    try (split; [by intros [= <-]; split; [|lia] | by intros [-> _]]).
  split; [done|]. intros [_ ?]. lia.
Qed.

(** C5.  A line of four tab-separated fields or more parses, and joining the
    genes of the record with [" | "] gives back the third field, joining its
    phenotypes gives back the fourth; a field in which [" | "] does not occur
    gives the one-element list of that field, the empty string included. *)
Theorem split_join_roundtrip line f0 f1 f2 f3 rest :
  split TAB line = f0 :: f1 :: f2 :: f3 :: rest →
  ∃ m, DictyMutant_init line = Ok m
    ∧ join BAR (genes m) = f2
    ∧ join BAR (phenotypes m) = f3
    ∧ ((∀ a b, f2 ≠ a +:+ BAR +:+ b) → genes m = [f2])
    ∧ ((∀ a b, f3 ≠ a +:+ BAR +:+ b) → phenotypes m = [f3])
    ∧ (f2 = "" → genes m = [""])
    ∧ (f3 = "" → phenotypes m = [""]).
Proof.
  intros Hline. eexists. split; [by eapply DictyMutant_init_fields|]. cbn.
  repeat split; auto using join_split, split_absent.
  - by intros ->.
  - by intros ->.
Qed.

(** C6.  The constructor raises, and then [IndexError], exactly on the lines
    of fewer than four tab-separated fields; any line of four fields or more
    gives a record, whatever comes after the fourth field. *)
Theorem init_fails_iff_short line :
  (DictyMutant_init line = Raise IndexError ↔ length (split TAB line) < 4)
  ∧ (∀ e, DictyMutant_init line = Raise e → e = IndexError)
  ∧ ((4 ≤ length (split TAB line))%nat ↔ ∃ m, DictyMutant_init line = Ok m).
Proof.
  split; [|split].
  - rewrite DictyMutant_init_Raise. split; [by intros [_ ?]|done].
  - intros e. rewrite DictyMutant_init_Raise. by intros [-> _].
  - split.
    + destruct (split TAB line) as [|f0 [|f1 [|f2 [|f3 rest]]]] eqn:E; cbn; try lia.
      intros _. eexists. by eapply DictyMutant_init_fields.
    + intros [m (f0 & f1 & f2 & f3 & rest & -> & _)%DictyMutant_init_Ok]. cbn. lia.
Qed.

(** ** Comprehensions *)

Section comprehension.
Context {A B : Type} (f : A → result B).

Lemma comprehension_Ok l ys :
  comprehension f l = Ok ys ↔ Forall2 (λ x y, f x = Ok y) l ys.
Proof.
  revert ys; induction l as [|x l IH]; intros ys; cbn.
  - split; [intros [= <-]; constructor | by inversion 1].
  - destruct (f x) as [y|e] eqn:Hx; cbn.
    + destruct (comprehension f l) as [ys'|e]; cbn.
      * split.
        -- intros [= <-]. constructor; [done|]. by apply IH.
        -- intros HF. inversion HF as [|? y' ? ys'' Hy Hys]; subst.
           rewrite Hx in Hy. injection Hy as <-.
           apply IH in Hys. by injection Hys as <-.
      * split; [done|]. intros HF. inversion HF as [|? y' ? ys'' Hy Hys]; subst.
        by apply IH in Hys.
    + split; [done|]. intros HF. inversion HF as [|? y' ? ys'' Hy Hys]; subst.
      by rewrite Hx in Hy.
Qed.

Lemma comprehension_Raise l e :
  comprehension f l = Raise e → ∃ x, x ∈ l ∧ f x = Raise e.
Proof.
  induction l as [|x l IH]; cbn; [done|].
  destruct (f x) as [y|e'] eqn:Hx; cbn.
  - destruct (comprehension f l) as [ys'|e']; cbn; [done|].
    intros [= ->]. destruct IH as (x' & ? & ?); [done|].
    exists x'. split; [by right|done].
  - intros [= ->]. exists x. split; [by left|done].
Qed.
End comprehension.

(** ** The merge *)

Lemma bind_Ok {A B} (m : result A) (k : A → result B) b :
  m ≫= k = Ok b ↔ ∃ a, m = Ok a ∧ k a = Ok b.
Proof.
  destruct m as [a|e]; cbn.
  - split; [by exists a|]. by intros (? & [= <-] & ?).
  - split; [done|]. by intros (? & ? & ?).
Qed.

Lemma bind_Raise {A B} (m : result A) (k : A → result B) e :
  m ≫= k = Raise e ↔ m = Raise e ∨ ∃ a, m = Ok a ∧ k a = Raise e.
Proof.
  destruct m as [a|e']; cbn.
  - split; [intros ?; right; by exists a|]. by intros [|(? & [= <-] & ?)].
  - split; [intros [= ->]; by left|]. by intros [[= ->]|(? & ? & ?)].
Qed.

Lemma the_names_Ok lines X :
  DictyMutants.the_names lines = Ok X →
  (∀ line, line ∈ lines → ∃ m, DictyMutant_init line = Ok m) ∧
  (∀ n, n ∈ X ↔
     ∃ line m, line ∈ lines ∧ DictyMutant_init line = Ok m ∧ name m = n).
Proof.
  unfold DictyMutants.the_names. intros (l & Hl & [= <-])%bind_Ok.
  apply comprehension_Ok in Hl. split.
  - intros line (i & Hi)%list_elem_of_lookup.
    destruct (Forall2_lookup_l _ _ _ _ _ Hl Hi) as (n & _ & (m & ? & _)%bind_Ok).
    by exists m.
  - intros n. rewrite elem_of_list_to_set. split.
    + intros (i & Hi)%list_elem_of_lookup.
      destruct (Forall2_lookup_r _ _ _ _ _ Hl Hi) as (line & Hline & (m & ? & [= ?])%bind_Ok).
      exists line, m. split; [|done]. apply list_elem_of_lookup. by exists i.
    + intros (line & m & (i & Hi)%list_elem_of_lookup & Hm & <-).
      destruct (Forall2_lookup_l _ _ _ _ _ Hl Hi) as (n & Hn & Hb).
      rewrite Hm in Hb. injection Hb as <-.
      apply list_elem_of_lookup. by exists i.
Qed.

Lemma the_names_Raise lines e :
  DictyMutants.the_names lines = Raise e → e = IndexError.
Proof.
  unfold DictyMutants.the_names.
  intros [Hr|(? & _ & ?)]%bind_Raise; [|done].
  apply comprehension_Raise in Hr as (line & _ & [Hr|(? & _ & ?)]%bind_Raise); [|done].
  by apply DictyMutant_init_Raise in Hr as [-> _].
Qed.

(** The loop body changes flags only. *)
Lemma tag_fields ns os ms ds ots m :
  let m' := DictyMutants.tag ns os ms ds ots m in
  name m' = name m ∧ descriptor m' = descriptor m ∧
  genes m' = genes m ∧ phenotypes m' = phenotypes m.
Proof. unfold DictyMutants.tag. by repeat case_decide. Qed.

Lemma tag_name ns os ms ds ots m :
  name (DictyMutants.tag ns os ms ds ots m) = name m.
Proof. apply tag_fields. Qed.

(** A flag is true after the loop body when the name is in the set of its
    category, or when it was true before. *)
Lemma tag_flags ns os ms ds ots m :
  let m' := DictyMutants.tag ns os ms ds ots m in
  (null m' = true ↔ name m ∈ ns ∨ null m = true) ∧
  (overexp m' = true ↔ name m ∈ os ∨ overexp m = true) ∧
  (multiple m' = true ↔ name m ∈ ms ∨ multiple m = true) ∧
  (develop m' = true ↔ name m ∈ ds ∨ develop m = true) ∧
  (other m' = true ↔ name m ∈ ots ∨ other m = true).
Proof.
  unfold DictyMutants.tag. repeat case_decide; cbn in *; intuition congruence.
Qed.

Section merge.
Context `{DictOrder}.

Lemma download_mutants_Ok all_mutants null_mutants overexp_mutants
    multiple_mutants develop_mutants other_mutants s :
  DictyMutants.download_mutants all_mutants null_mutants overexp_mutants
    multiple_mutants develop_mutants other_mutants = Ok s ↔
  ∃ _mutants ns os ms ds ots,
    comprehension DictyMutant_init all_mutants = Ok _mutants ∧
    DictyMutants.the_names null_mutants = Ok ns ∧
    DictyMutants.the_names overexp_mutants = Ok os ∧
    DictyMutants.the_names multiple_mutants = Ok ms ∧
    DictyMutants.the_names develop_mutants = Ok ds ∧
    DictyMutants.the_names other_mutants = Ok ots ∧
    s = table_order (imap (λ i x, (i, x)) (DictyMutants.tag ns os ms ds ots <$> _mutants)).
Proof.
  unfold DictyMutants.download_mutants. split.
  - intros (l & ? & (ns & ? & (os & ? & (ms & ? & (ds & ? & (ots & ? & [= <-])
      %bind_Ok)%bind_Ok)%bind_Ok)%bind_Ok)%bind_Ok)%bind_Ok.
    by exists l, ns, os, ms, ds, ots.
  - intros (l & ns & os & ms & ds & ots & -> & -> & -> & -> & -> & -> & ->). done.
Qed.

Lemma download_mutants_Raise all_mutants null_mutants overexp_mutants
    multiple_mutants develop_mutants other_mutants e :
  DictyMutants.download_mutants all_mutants null_mutants overexp_mutants
    multiple_mutants develop_mutants other_mutants = Raise e → e = IndexError.
Proof.
  unfold DictyMutants.download_mutants.
  intros [Hr|(? & _ & [Hr|(? & _ & [Hr|(? & _ & [Hr|(? & _ & [Hr|(? & _ &
    [Hr|(? & _ & ?)]%bind_Raise)]%bind_Raise)]%bind_Raise)]%bind_Raise)]
    %bind_Raise)]%bind_Raise; try done; try by eapply the_names_Raise.
  apply comprehension_Raise in Hr as (line & _ & Hr).
  by apply DictyMutant_init_Raise in Hr as [-> _].
Qed.

(** The entries of the store built by the merge: the object of identity
    [r] is the record of the [r]-th line of [all_mutants], flagged. *)
Lemma download_mutants_entries all_mutants null_mutants overexp_mutants
    multiple_mutants develop_mutants other_mutants s :
  DictyMutants.download_mutants all_mutants null_mutants overexp_mutants
    multiple_mutants develop_mutants other_mutants = Ok s →
  ∃ ns os ms ds ots,
    DictyMutants.the_names null_mutants = Ok ns ∧
    DictyMutants.the_names overexp_mutants = Ok os ∧
    DictyMutants.the_names multiple_mutants = Ok ms ∧
    DictyMutants.the_names develop_mutants = Ok ds ∧
    DictyMutants.the_names other_mutants = Ok ots ∧
    length s = length all_mutants ∧
    keys s ≡ₚ seq 0 (length all_mutants) ∧
    ∀ r m, (r, m) ∈ s ↔
      ∃ line m0, all_mutants !! r = Some line ∧ DictyMutant_init line = Ok m0 ∧
                 m = DictyMutants.tag ns os ms ds ots m0.
Proof.
  intros (l & ns & os & ms & ds & ots & Hl & ? & ? & ? & ? & ? & ->)
    %download_mutants_Ok.
  exists ns, os, ms, ds, ots. do 5 (split; [done|]).
  apply comprehension_Ok in Hl.
  split; [|split].
  - rewrite table_order_perm, length_imap, length_fmap.
    symmetry. by eapply Forall2_length.
  - unfold keys. rewrite table_order_perm, fmap_imap.
    rewrite (imap_ext _ (λ i _, i)) by done.
    rewrite imap_seq_0, list_fmap_id, length_fmap.
    by rewrite (Forall2_length _ _ _ Hl).
  - intros r m. rewrite table_order_perm, elem_of_lookup_imap. split.
    + intros (i & m' & [= -> ->] & Hi).
      apply list_lookup_fmap_Some in Hi as (m0 & -> & Hm0).
      destruct (Forall2_lookup_r _ _ _ _ _ Hl Hm0) as (line & ? & ?).
      by exists line, m0.
    + intros (line & m0 & Hline & Hm0 & ->).
      destruct (Forall2_lookup_l _ _ _ _ _ Hl Hline) as (m0' & Hl0 & Hm0').
      rewrite Hm0 in Hm0'. injection Hm0' as <-.
      exists r, (DictyMutants.tag ns os ms ds ots m0). split; [done|].
      by rewrite list_lookup_fmap, Hl0.
Qed.
End merge.

Lemma dict_lookup_Some (d : pydict) r m :
  NoDup (keys d) → dict_lookup d r = Some m ↔ (r, m) ∈ d.
Proof.
  unfold keys. induction d as [|[r' m'] d IH]; cbn.
  - intros _. split; [done|]. by intros ?%elem_of_nil.
  - intros [Hr' Hd]%NoDup_cons. specialize (IH Hd).
    rewrite elem_of_cons. case_decide as Hr.
    + subst r'. split; [intros [= ->]; by left|].
      intros [[= ->]|Hin]; [done|].
      destruct Hr'. apply list_elem_of_fmap. by exists (r, m).
    + rewrite IH. split; [by right|]. by intros [[= -> ->]|?].
Qed.

Lemma dict_lookup_None (d : pydict) r :
  dict_lookup d r = None ↔ r ∉ keys d.
Proof.
  unfold keys. induction d as [|[r' m'] d IH]; cbn.
  - split; [intros _; apply not_elem_of_nil|done].
  - rewrite not_elem_of_cons. case_decide; [|rewrite IH]; intuition congruence.
Qed.

Lemma dict_lookup_elem_of (d : pydict) r m :
  dict_lookup d r = Some m → (r, m) ∈ d.
Proof.
  induction d as [|[r' m'] d IH]; cbn; [done|].
  case_decide; [intros [= ->]; subst; by left|]. intros ?. right. by apply IH.
Qed.

Section merge_properties.
Context `{DictOrder}.
Variables all_mutants null_mutants overexp_mutants multiple_mutants
  develop_mutants other_mutants : list string.

Local Abbreviation download :=
  (DictyMutants.download_mutants all_mutants null_mutants overexp_mutants
     multiple_mutants develop_mutants other_mutants).

(** C1.  In the store built by the merge, the flag of a record for a
    category is true exactly when the name of the record is the name of
    some line of the file of that category; the record was built, from its
    line of the all-mutants file, with the five flags false. *)
Theorem category_flags_iff s r m :
  download = Ok s → (r, m) ∈ s →
  (null m = true ↔ id_in (name m) null_mutants) ∧
  (overexp m = true ↔ id_in (name m) overexp_mutants) ∧
  (multiple m = true ↔ id_in (name m) multiple_mutants) ∧
  (develop m = true ↔ id_in (name m) develop_mutants) ∧
  (other m = true ↔ id_in (name m) other_mutants) ∧
  ∃ line m0, all_mutants !! r = Some line ∧ DictyMutant_init line = Ok m0 ∧
    name m0 = name m ∧
    null m0 = false ∧ overexp m0 = false ∧ multiple m0 = false ∧
    develop m0 = false ∧ other m0 = false.
Proof.
  intros (ns & os & ms & ds & ots & Hns & Hos & Hms & Hds & Hots & _ & _ & Hs)
    %download_mutants_entries Hin.
  apply Hs in Hin as (line & m0 & Hline & Hm0 & ->).
  apply the_names_Ok in Hns as [_ Hns], Hos as [_ Hos], Hms as [_ Hms],
    Hds as [_ Hds], Hots as [_ Hots].
  destruct (tag_flags ns os ms ds ots m0) as (Hn & Ho & Hm & Hd & Hot).
  destruct (DictyMutant_init_Ok _ _ Hm0) as (f0 & f1 & f2 & f3 & rest & _ & Hrec).
  rewrite tag_name. unfold id_in.
  rewrite Hn, Ho, Hm, Hd, Hot, Hns, Hos, Hms, Hds, Hots.
  subst m0; cbn.
  repeat split; try (intros [?|?]; [done|discriminate]); try (by left).
  exists line. eexists. by repeat split.
Qed.

(** C10.  A line of fewer than four tab-separated fields in any of the five
    category files makes the whole merge raise [IndexError]: no store is
    built. *)
Theorem malformed_category_line_aborts line :
  line ∈ (null_mutants ++ overexp_mutants ++ multiple_mutants
          ++ develop_mutants ++ other_mutants)%list →
  length (split TAB line) < 4 →
  download = Raise IndexError.
Proof.
  intros Hin Hshort. destruct download as [s|e] eqn:Hd.
  - apply download_mutants_entries in Hd
      as (ns & os & ms & ds & ots & Hns & Hos & Hms & Hds & Hots & _).
    apply the_names_Ok in Hns as [Hns _], Hos as [Hos _], Hms as [Hms _],
      Hds as [Hds _], Hots as [Hots _].
    assert (∃ m, DictyMutant_init line = Ok m) as [m Hm].
    { rewrite !elem_of_app in Hin. intuition. }
    assert (DictyMutant_init line = Raise IndexError) as Hr
      by by apply DictyMutant_init_Raise.
    congruence.
  - by apply download_mutants_Raise in Hd as ->.
Qed.
End merge_properties.

(** ** The accessors *)

Lemma comprehension_fmap {A B} (f : A → result B) (h : A → B) l :
  (∀ x, x ∈ l → f x = Ok (h x)) → comprehension f l = Ok (h <$> l).
Proof.
  intros Hf.
  by apply comprehension_Ok, Forall2_fmap_r, Forall_Forall2_diag, Forall_forall.
Qed.

Section accessors.
Variable s : pydict.

Lemma getitem_Ok k m :
  getitem s k = Ok m ↔ ∃ r, k = VObj r ∧ dict_lookup s r = Some m.
Proof.
  destruct k as [r|str]; cbn.
  - destruct (dict_lookup s r) as [m'|] eqn:E; split.
    + intros [= ->]. by exists r.
    + intros (? & [= <-] & E'). rewrite E in E'. by injection E' as ->.
    + done.
    + intros (? & [= <-] & E'). by rewrite E in E'.
  - split; [done|]. by intros (? & ? & _).
Qed.

Lemma getitem_Raise k e :
  getitem s k = Raise e ↔ e = KeyError ∧ ∀ r, k = VObj r → r ∉ keys s.
Proof.
  destruct k as [r|str]; cbn.
  - destruct (dict_lookup s r) as [m'|] eqn:E; split.
    + done.
    + intros [_ Hk]. destruct (Hk r eq_refl).
      apply dict_lookup_elem_of in E. apply list_elem_of_fmap. by exists (r, m').
    + intros [= <-]. split; [done|]. intros ? [= <-]. by apply dict_lookup_None.
    + by intros [-> _].
  - split; [by intros [= <-]|by intros [-> _]].
Qed.

Lemma getitem_key r :
  r ∈ keys s → ∃ m, dict_lookup s r = Some m ∧ getitem s (VObj r) = Ok m.
Proof.
  intros Hr. cbn. destruct (dict_lookup s r) as [m|] eqn:E; [by exists m|].
  by apply dict_lookup_None in E.
Qed.

Lemma mutant_genes_key r :
  r ∈ keys s → DictyMutants.mutant_genes s (VObj r) = Ok (read s genes r).
Proof.
  intros (m & Hm & Hg)%getitem_key.
  unfold DictyMutants.mutant_genes, read. by rewrite Hg, Hm.
Qed.

Lemma mutant_phenotypes_key r :
  r ∈ keys s → DictyMutants.mutant_phenotypes s (VObj r) = Ok (read s phenotypes r).
Proof.
  intros (m & Hm & Hg)%getitem_key.
  unfold DictyMutants.mutant_phenotypes, read. by rewrite Hg, Hm.
Qed.

Lemma elem_of_read field r x :
  x ∈ read s field r ↔ ∃ m, dict_lookup s r = Some m ∧ x ∈ field m.
Proof.
  unfold read. destruct (dict_lookup s r) as [m|]; cbn.
  - split; [by exists m|]. by intros (? & [= <-] & ?).
  - split; [by intros ?%elem_of_nil|]. by intros (? & ? & ?).
Qed.

Lemma read_key field r x : x ∈ read s field r → r ∈ keys s.
Proof.
  intros (m & Hm%dict_lookup_elem_of & _)%elem_of_read.
  apply list_elem_of_fmap. by exists (r, m).
Qed.

(** The union of a field over the records that the keys give. *)
Lemma elem_of_read_keys field x :
  x ∈ mjoin (read s field <$> keys s) ↔
  ∃ r m, dict_lookup s r = Some m ∧ x ∈ field m.
Proof.
  rewrite list_elem_of_join. split.
  - intros (l & Hx & (r & -> & _)%list_elem_of_fmap).
    exists r. by apply elem_of_read.
  - intros (r & m & Hm & Hx).
    assert (x ∈ read s field r) as Hr by (apply elem_of_read; by exists m).
    exists (read s field r). split; [done|].
    apply list_elem_of_fmap. exists r. split; [done|]. by eapply read_key.
Qed.
End accessors.

Lemma reduce_add_concat {A} (ls : list (list A)) : reduce_add ls = mjoin ls.
Proof.
  unfold reduce_add. rewrite <-(app_nil_l (mjoin ls)). generalize (@nil A).
  induction ls as [|l ls IH]; intros acc; cbn; [by rewrite app_nil_r|].
  by rewrite IH, app_assoc.
Qed.

Lemma sorted_spec (X : gset string) :
  (∀ x, x ∈ sorted X ↔ x ∈ X) ∧ Sorted String.le (sorted X) ∧ NoDup (sorted X).
Proof.
  unfold sorted. split; [|split].
  - intros x. by rewrite merge_sort_Permutation, elem_of_elements.
  - apply (Sorted_merge_sort _).
  - rewrite merge_sort_Permutation. apply NoDup_elements.
Qed.

(** C7.  Whatever the store, a key that is not one of its keys (an object
    that the store does not hold, or any [str]) makes the subscription
    [self._mutants[mutant]], [mutant_genes] and [mutant_phenotypes] raise
    [KeyError]; none of them returns a value. *)
Theorem unknown_mutant_raises (s : pydict) (k : value) :
  (∀ r, k = VObj r → r ∉ keys s) →
  getitem s k = Raise KeyError ∧
  DictyMutants.mutant_genes s k = Raise KeyError ∧
  DictyMutants.mutant_phenotypes s k = Raise KeyError.
Proof.
  intros Hk. assert (getitem s k = Raise KeyError) as Hg by by apply getitem_Raise.
  unfold DictyMutants.mutant_genes, DictyMutants.mutant_phenotypes.
  by rewrite Hg.
Qed.

(** C8.  Whatever the store, records without genes included, [genes()]
    returns the genes of all its records: each gene of a record is in the
    list and nothing else is, the list is in ascending order, and no element
    is repeated; [phenotypes()] does the same for the phenotypes. *)
Theorem genes_sorted_union (s : pydict) :
  (∃ gs, DictyMutants.genes s = Ok gs ∧
     (∀ g, g ∈ gs ↔ ∃ r m, dict_lookup s r = Some m ∧ g ∈ genes m) ∧
     Sorted String.le gs ∧ NoDup gs) ∧
  (∃ ps, DictyMutants.phenotypes s = Ok ps ∧
     (∀ p, p ∈ ps ↔ ∃ r m, dict_lookup s r = Some m ∧ p ∈ phenotypes m) ∧
     Sorted String.le ps ∧ NoDup ps).
Proof.
  split.
  - unfold DictyMutants.genes.
    rewrite (comprehension_fmap _ (read s genes)) by apply mutant_genes_key.
    cbn. eexists. split; [done|].
    destruct (sorted_spec
      (list_to_set (reduce_add (read s genes <$> DictyMutants.mutants s))))
      as (Hin & ? & ?).
    split; [|done]. intros g.
    rewrite Hin, elem_of_list_to_set, reduce_add_concat.
    apply elem_of_read_keys.
  - unfold DictyMutants.phenotypes.
    rewrite (comprehension_fmap _ (read s phenotypes)) by apply mutant_phenotypes_key.
    cbn. eexists. split; [done|].
    destruct (sorted_spec
      (list_to_set (reduce_add (read s phenotypes <$> DictyMutants.mutants s))))
      as (Hin & ? & ?).
    split; [|done]. intros g.
    rewrite Hin, elem_of_list_to_set, reduce_add_concat.
    apply elem_of_read_keys.
Qed.

(** ** The inverted indices *)

Lemma defaultdict_get_add dgm key mutant g r :
  r ∈ defaultdict_get (defaultdict_add dgm key mutant) g ↔
  r ∈ defaultdict_get dgm g ∨ (g = key ∧ r = mutant).
Proof.
  unfold defaultdict_get, defaultdict_add. destruct (decide (g = key)) as [->|Hne].
  - rewrite lookup_insert_eq. cbn. rewrite elem_of_union, elem_of_singleton.
    intuition.
  - rewrite lookup_insert_ne by done. intuition.
Qed.

Lemma defaultdict_get_fold_add dgm mutant keys g r :
  r ∈ defaultdict_get (foldl (λ dgm key, defaultdict_add dgm key mutant) dgm keys) g ↔
  r ∈ defaultdict_get dgm g ∨ (r = mutant ∧ g ∈ keys).
Proof.
  revert dgm; induction keys as [|key keys IH]; intros dgm; cbn.
  - split; [by left|]. intros [?|[_ ?%elem_of_nil]]; done.
  - rewrite IH, defaultdict_get_add, elem_of_cons. intuition.
Qed.

Lemma defaultdict_get_fold_pairs dgm (pairs : list (ref * list string)) g r :
  r ∈ defaultdict_get
        (foldl (λ dgm '(mutant, keys),
                foldl (λ dgm key, defaultdict_add dgm key mutant) dgm keys)
           dgm pairs) g ↔
  r ∈ defaultdict_get dgm g ∨ ∃ keys, (r, keys) ∈ pairs ∧ g ∈ keys.
Proof.
  revert dgm; induction pairs as [|[mutant keys] pairs IH]; intros dgm; cbn.
  - split; [by left|]. intros [?|(? & ?%elem_of_nil & _)]; done.
  - rewrite IH, defaultdict_get_fold_add. split.
    + intros [[?|[-> ?]]|(ks & ? & ?)]; [by left| |].
      * right. exists keys. split; [by left|done].
      * right. exists ks. split; [by right|done].
    + intros [?|(ks & [[= <- <-]|?]%elem_of_cons & ?)].
      * by left; left.
      * by left; right.
      * right. by exists ks.
Qed.

Lemma defaultdict_get_empty g : defaultdict_get ∅ g = ∅.
Proof. unfold defaultdict_get. by rewrite lookup_empty. Qed.

(** The index built from the pairs that the keys of the store give. *)
Lemma index_of_keys (s : pydict) field g r :
  r ∈ defaultdict_get
        (foldl (λ dgm '(mutant, keys),
                foldl (λ dgm key, defaultdict_add dgm key mutant) dgm keys)
           ∅ ((λ r, (r, read s field r)) <$> keys s)) g ↔
  ∃ m, dict_lookup s r = Some m ∧ g ∈ field m.
Proof.
  rewrite defaultdict_get_fold_pairs, defaultdict_get_empty. split.
  - intros [?%elem_of_empty|(ks & (r' & [= <- ->] & _)%list_elem_of_fmap & Hg)];
      [done|]. by apply elem_of_read.
  - intros Hm%elem_of_read. right. exists (read s field r). split; [|done].
    apply list_elem_of_fmap. exists r. split; [done|]. by eapply read_key.
Qed.

Lemma gene_mutants_spec (s : pydict) :
  ∃ dgm, DictyMutants.gene_mutants s = Ok dgm ∧
    ∀ g r, r ∈ defaultdict_get dgm g ↔
           ∃ m, dict_lookup s r = Some m ∧ g ∈ genes m.
Proof.
  unfold DictyMutants.gene_mutants.
  rewrite (comprehension_fmap _ (λ r, (r, read s genes r))).
  - cbn. eexists. split; [done|]. intros g r. apply index_of_keys.
  - intros r Hr. by rewrite mutant_genes_key.
Qed.

Lemma phenotype_mutants_spec (s : pydict) :
  ∃ dpm, DictyMutants.phenotype_mutants s = Ok dpm ∧
    ∀ p r, r ∈ defaultdict_get dpm p ↔
           ∃ m, dict_lookup s r = Some m ∧ p ∈ phenotypes m.
Proof.
  unfold DictyMutants.phenotype_mutants.
  rewrite (comprehension_fmap _ (λ r, (r, read s phenotypes r))).
  - cbn. eexists. split; [done|]. intros g r. apply index_of_keys.
  - intros r Hr. by rewrite mutant_phenotypes_key.
Qed.

(** C9.  Whatever the store, [gene_mutants()] returns an index in which the
    set under a gene holds a mutant exactly when the store holds that mutant
    and the gene is one of the genes of its record; [phenotype_mutants()]
    does the same for the phenotypes. *)
Theorem index_iff_member (s : pydict) :
  (∃ dgm, DictyMutants.gene_mutants s = Ok dgm ∧
     ∀ g r, r ∈ defaultdict_get dgm g ↔
            ∃ m, dict_lookup s r = Some m ∧ g ∈ genes m) ∧
  (∃ dpm, DictyMutants.phenotype_mutants s = Ok dpm ∧
     ∀ p r, r ∈ defaultdict_get dpm p ↔
            ∃ m, dict_lookup s r = Some m ∧ p ∈ phenotypes m).
Proof. split; [apply gene_mutants_spec|apply phenotype_mutants_spec]. Qed.

(** ** The store that the merge builds *)

Lemma dict_lookup_imap (d : pydict) (l : list DictyMutant) r :
  d ≡ₚ imap (λ i x, (i, x)) l → dict_lookup d r = l !! r.
Proof.
  intros Hd.
  assert (keys d ≡ₚ seq 0 (length l)) as Hk.
  { unfold keys. rewrite Hd, fmap_imap.
    rewrite (imap_ext _ (λ i _, i)) by done. by rewrite imap_seq_0, list_fmap_id. }
  assert (NoDup (keys d)) as Hnd by (rewrite Hk; apply NoDup_seq).
  destruct (l !! r) as [m|] eqn:E.
  - apply dict_lookup_Some; [done|]. rewrite Hd.
    by apply (elem_of_lookup_imap_2 (λ i x, (i, x))).
  - apply dict_lookup_None. rewrite Hk, elem_of_seq.
    apply lookup_ge_None in E. lia.
Qed.

Section store_properties.
Context `{DictOrder}.
Variables all_mutants null_mutants overexp_mutants multiple_mutants
  develop_mutants other_mutants : list string.

Local Abbreviation download :=
  (DictyMutants.download_mutants all_mutants null_mutants overexp_mutants
     multiple_mutants develop_mutants other_mutants).

(** The store read by key: the object [r] is the record of the [r]-th line
    of [all_mutants], flagged; the keys are these objects, once each. *)
Lemma download_mutants_lookup s :
  download = Ok s →
  ∃ _mutants ns os ms ds ots,
    comprehension DictyMutant_init all_mutants = Ok _mutants ∧
    length _mutants = length all_mutants ∧
    keys s ≡ₚ seq 0 (length all_mutants) ∧
    ∀ r, dict_lookup s r = DictyMutants.tag ns os ms ds ots <$> _mutants !! r.
Proof.
  intros Hd.
  destruct (download_mutants_entries _ _ _ _ _ _ _ Hd)
    as (_ & _ & _ & _ & _ & _ & _ & _ & _ & _ & _ & Hk & _).
  apply download_mutants_Ok in Hd
    as (l & ns & os & ms & ds & ots & Hl & _ & _ & _ & _ & _ & ->).
  exists l, ns, os, ms, ds, ots. split; [done|]. split; [|split; [done|]].
  - apply comprehension_Ok in Hl. symmetry. by eapply Forall2_length.
  - intros r. rewrite <-list_lookup_fmap. apply dict_lookup_imap, table_order_perm.
Qed.

(** C2.  An id that occurs in a category file and in no line of the
    all-mutants file names no record of the store and no mutant of an entry
    of the gene index or of the phenotype index; the records of the store
    are the records of the lines of the all-mutants file, one for one. *)
Theorem category_only_id_dropped s id :
  download = Ok s →
  id_in id (null_mutants ++ overexp_mutants ++ multiple_mutants
            ++ develop_mutants ++ other_mutants)%list →
  ¬ id_in id all_mutants →
  (∀ r m, (r, m) ∈ s → name m ≠ id) ∧
  (∃ dgm dpm,
     DictyMutants.gene_mutants s = Ok dgm ∧
     DictyMutants.phenotype_mutants s = Ok dpm ∧
     ∀ k r, r ∈ defaultdict_get dgm k ∨ r ∈ defaultdict_get dpm k →
            ∃ m, dict_lookup s r = Some m ∧ name m ≠ id) ∧
  (∃ _mutants,
     comprehension DictyMutant_init all_mutants = Ok _mutants ∧
     length s = length _mutants ∧
     ∀ r, fields <$> dict_lookup s r = fields <$> _mutants !! r).
Proof.
  intros Hd _ Hid.
  destruct (download_mutants_entries _ _ _ _ _ _ _ Hd)
    as (ns & os & ms & ds & ots & _ & _ & _ & _ & _ & Hlen & _ & Hs).
  destruct (download_mutants_lookup _ Hd)
    as (l & ns' & os' & ms' & ds' & ots' & Hl & Hll & _ & Hlook).
  assert (∀ r m, (r, m) ∈ s → name m ≠ id) as Hname.
  { intros r m (line & m0 & Hline & Hm0 & ->)%Hs Hn. rewrite tag_name in Hn.
    apply Hid. exists line, m0. split; [|done].
    apply list_elem_of_lookup. by exists r. }
  split; [done|]. split.
  - destruct (gene_mutants_spec s) as (dgm & Hg & Hgi).
    destruct (phenotype_mutants_spec s) as (dpm & Hp & Hpi).
    exists dgm, dpm. do 2 (split; [done|]).
    intros k r [(m & Hm & _)%Hgi|(m & Hm & _)%Hpi]; exists m;
      (split; [done|]); by eapply Hname, dict_lookup_elem_of.
  - exists l. split; [done|]. split; [congruence|].
    intros r. rewrite Hlook. destruct (l !! r) as [m0|]; cbn; [|done].
    f_equal. unfold fields.
    destruct (tag_fields ns' os' ms' ds' ots' m0) as (-> & -> & -> & ->). done.
Qed.

(** C3, as the code has it.  [mutants()] returns the objects built from the
    lines of the all-mutants file, each once, in the order of the table of
    the dict: a permutation of the order of the file. *)
Theorem mutants_permutation_of_file_order s :
  download = Ok s →
  ∃ rs, DictyMutants.mutants s ≡ₚ rs ∧ in_file_order all_mutants s rs.
Proof.
  intros (l & ns & os & ms & ds & ots & Hl & Hll & Hk & Hlook)
    %download_mutants_lookup.
  exists (seq 0 (length all_mutants)). split; [done|].
  apply comprehension_Ok in Hl.
  apply Forall2_same_length_lookup. split; [by rewrite length_seq|].
  intros i line r Hline [-> _]%lookup_seq. rewrite Nat.add_0_l.
  destruct (Forall2_lookup_l _ _ _ _ _ Hl Hline) as (m0 & Hm0 & Hinit).
  exists m0, (DictyMutants.tag ns os ms ds ots m0).
  split; [done|]. split; [by rewrite Hlook, Hm0|apply tag_name].
Qed.

(** C4, as the code has it.  When the lines of the all-mutants file have
    non-empty names, no two of them the same, every name of the store is
    non-empty and is the name of one entry. *)
Theorem ids_unique_of_distinct_lines s :
  download = Ok s →
  (∀ line m, line ∈ all_mutants → DictyMutant_init line = Ok m → name m ≠ "") →
  (∀ i j li lj mi mj,
     all_mutants !! i = Some li → all_mutants !! j = Some lj →
     DictyMutant_init li = Ok mi → DictyMutant_init lj = Ok mj →
     name mi = name mj → i = j) →
  ids_unique s.
Proof.
  intros (ns & os & ms & ds & ots & _ & _ & _ & _ & _ & _ & _ & Hs)
    %download_mutants_entries Hne Hinj r m (line & m0 & Hline & Hm0 & ->)%Hs.
  rewrite tag_name. split.
  - eapply Hne; [|done]. apply list_elem_of_lookup. by exists r.
  - intros r' m' (line' & m0' & Hline' & Hm0' & ->)%Hs. rewrite tag_name.
    intros Hn. assert (r' = r) as -> by by eapply Hinj.
    rewrite Hline in Hline'. injection Hline' as <-.
    rewrite Hm0 in Hm0'. by injection Hm0' as <-.
Qed.
End store_properties.

(** ** Concrete runs *)

Example download_ex :
  @DictyMutants.download_mutants insertion_order
    [line_G01; line_G02] [line_G01] [] [] [] [line_G99]
  = Ok [(0, mutant_G01 true); (1, mutant_G02)].
Proof. vm_compute. reflexivity. Qed.

(** C3, as the claim states it, fails: when the table of the dict lists the
    two objects the other way round, the first mutant that [mutants()]
    returns is the record of the second line. *)
Lemma mutants_not_in_file_order :
  ∃ s, @DictyMutants.download_mutants reverse_order
         [line_G01; line_G02] [] [] [] [] [] = Ok s ∧
       ¬ in_file_order [line_G01; line_G02] s (DictyMutants.mutants s).
Proof.
  eexists. split; [vm_compute; reflexivity|].
  intros HF. apply Forall2_cons_1 in HF as [(m0 & m & H0 & Hl & Hn) _].
  vm_compute in H0, Hl. injection H0 as <-. injection Hl as <-.
  discriminate Hn.
Qed.

(** C4, as the claim states it, fails: two lines of the all-mutants file with
    the same id give two entries of the store with that id. *)
Lemma repeated_id_kept :
  ∃ s, @DictyMutants.download_mutants insertion_order
         [entry "DDB_G01" "foo" "cbfA" "x"; entry "DDB_G01" "bar" "amiB" "y"]
         [] [] [] [] [] = Ok s ∧
       ¬ ids_unique s.
Proof.
  eexists. split; [vm_compute; reflexivity|].
  intros Hu.
  edestruct Hu as [_ Hu']; [apply list_elem_of_here|].
  discriminate (Hu' 1 _ (list_elem_of_further _ _ _ (list_elem_of_here _ _)) eq_refl).
Qed.

(** Subscription by the id of a record, a [str], raises: the keys are the
    objects. *)
Example getitem_by_name : getitem store_ex (VStr "DDB_G01") = Raise KeyError.
Proof. reflexivity. Qed.

Lemma split_join_roundtrip_witness :
  ∃ m, DictyMutant_init line_G02 = Ok m
    ∧ join BAR (genes m) = "cbfA | amiB"
    ∧ join BAR (phenotypes m) = ""
    ∧ ((∀ a b, "cbfA | amiB" ≠ a +:+ BAR +:+ b) → genes m = ["cbfA | amiB"])
    ∧ ((∀ a b, "" ≠ a +:+ BAR +:+ b) → phenotypes m = [""])
    ∧ ("cbfA | amiB" = "" → genes m = [""])
    ∧ ("" = "" → phenotypes m = [""]).
Proof.
  apply (split_join_roundtrip line_G02 "DDB_G02" "bar" "cbfA | amiB" "" []).
  vm_compute. reflexivity.
Defined.

Lemma category_flags_iff_witness :
  (null (mutant_G01 true) = true ↔ id_in (name (mutant_G01 true)) [line_G01]) ∧
  (overexp (mutant_G01 true) = true ↔ id_in (name (mutant_G01 true)) []) ∧
  (multiple (mutant_G01 true) = true ↔ id_in (name (mutant_G01 true)) []) ∧
  (develop (mutant_G01 true) = true ↔ id_in (name (mutant_G01 true)) []) ∧
  (other (mutant_G01 true) = true ↔ id_in (name (mutant_G01 true)) [line_G99]) ∧
  ∃ line m0, [line_G01; line_G02] !! 0 = Some line ∧ DictyMutant_init line = Ok m0 ∧
    name m0 = name (mutant_G01 true) ∧
    null m0 = false ∧ overexp m0 = false ∧ multiple m0 = false ∧
    develop m0 = false ∧ other m0 = false.
Proof.
  apply (@category_flags_iff insertion_order
           [line_G01; line_G02] [line_G01] [] [] [] [line_G99] store_ex).
  - vm_compute. reflexivity.
  - apply list_elem_of_here.
Defined.

Lemma malformed_category_line_aborts_witness :
  @DictyMutants.download_mutants insertion_order
    [line_G01; line_G02] [line_G01] [] ["DDB_G02"] [] [line_G99]
  = Raise IndexError.
Proof.
  apply (@malformed_category_line_aborts insertion_order
           [line_G01; line_G02] [line_G01] [] ["DDB_G02"] [] [line_G99] "DDB_G02").
  - cbn. apply list_elem_of_further, list_elem_of_here.
  - vm_compute. lia.
Defined.

Lemma unknown_mutant_raises_witness :
  getitem store_ex (VObj 7) = Raise KeyError ∧
  DictyMutants.mutant_genes store_ex (VObj 7) = Raise KeyError ∧
  DictyMutants.mutant_phenotypes store_ex (VObj 7) = Raise KeyError.
Proof.
  apply (unknown_mutant_raises store_ex (VObj 7)).
  intros r [= <-]. vm_compute. intros Hin.
  repeat (apply elem_of_cons in Hin as [Hin|Hin]; [discriminate Hin|]).
  by apply elem_of_nil in Hin.
Defined.

Lemma category_only_id_dropped_witness :
  (∀ r m, (r, m) ∈ store_ex → name m ≠ "DDB_G99") ∧
  (∃ dgm dpm,
     DictyMutants.gene_mutants store_ex = Ok dgm ∧
     DictyMutants.phenotype_mutants store_ex = Ok dpm ∧
     ∀ k r, r ∈ defaultdict_get dgm k ∨ r ∈ defaultdict_get dpm k →
            ∃ m, dict_lookup store_ex r = Some m ∧ name m ≠ "DDB_G99") ∧
  (∃ _mutants,
     comprehension DictyMutant_init [line_G01; line_G02] = Ok _mutants ∧
     length store_ex = length _mutants ∧
     ∀ r, fields <$> dict_lookup store_ex r = fields <$> _mutants !! r).
Proof.
  apply (@category_only_id_dropped insertion_order
           [line_G01; line_G02] [line_G01] [] [] [] [line_G99] store_ex "DDB_G99").
  - vm_compute. reflexivity.
  - exists line_G99. eexists. split; [|split; [vm_compute; reflexivity|reflexivity]].
    cbn. apply list_elem_of_further, list_elem_of_here.
  - intros (line & m & Hin & Hinit & Hname).
    apply elem_of_cons in Hin as [->|Hin];
      [|apply elem_of_cons in Hin as [->|Hin]; [|by apply elem_of_nil in Hin]];
      vm_compute in Hinit; injection Hinit as <-; discriminate Hname.
Defined.

Lemma mutants_permutation_of_file_order_witness :
  ∃ rs, DictyMutants.mutants [(1, mutant_G02); (0, mutant_G01 false)] ≡ₚ rs ∧
        in_file_order [line_G01; line_G02] [(1, mutant_G02); (0, mutant_G01 false)] rs.
Proof.
  apply (@mutants_permutation_of_file_order reverse_order
           [line_G01; line_G02] [] [] [] [] []).
  vm_compute. reflexivity.
Defined.

Lemma ids_unique_of_distinct_lines_witness : ids_unique store_ex.
Proof.
  apply (@ids_unique_of_distinct_lines insertion_order
           [line_G01; line_G02] [line_G01] [] [] [] [line_G99] store_ex).
  - vm_compute. reflexivity.
  - intros line m Hin Hinit.
    apply elem_of_cons in Hin as [->|Hin];
      [|apply elem_of_cons in Hin as [->|Hin]; [|by apply elem_of_nil in Hin]];
      vm_compute in Hinit; injection Hinit as <-; discriminate.
  - intros [|[|i]] [|[|j]] li lj mi mj Hi Hj Hmi Hmj Hn; try done;
      cbn in Hi, Hj; injection Hi as <-; injection Hj as <-;
      vm_compute in Hmi, Hmj; injection Hmi as <-; injection Hmj as <-;
      discriminate Hn.
Defined.

(** * Further properties *)

Example splitlines_ex :
  splitlines ("a" +:+ String LF (String LF ("b" +:+ String CR (String LF "c"))))
  = ["a"; ""; "b"; "c"].
Proof. vm_compute. reflexivity. Qed.

(** ** Strings *)

Lemma append_String c s t : String c s +:+ t = String c (s +:+ t).
Proof. reflexivity. Qed.

Lemma append_nil_l s : "" +:+ s = s.
Proof. reflexivity. Qed.

Lemma append_nil_r s : s +:+ "" = s.
Proof. induction s as [|c s IH]; [done|]. by rewrite append_String, IH. Qed.

Lemma append_assoc s t u : (s +:+ t) +:+ u = s +:+ t +:+ u.
Proof. induction s as [|c s IH]; [done|]. by rewrite !append_String, IH. Qed.

Lemma strip_prefix_app p r : strip_prefix p (p +:+ r) = Some r.
Proof.
  induction p as [|a p IH]; [by destruct r|].
  rewrite append_String. cbn [strip_prefix]. by rewrite decide_True.
Qed.

Lemma find_None_occurs sep s : find sep s = None → ¬ occurs sep s.
Proof.
  induction s as [|c s IH]; cbn [find].
  - destruct (strip_prefix sep "") eqn:E; [done|]. intros _ (a & b & Hs).
    destruct a; [|done]. rewrite append_nil_l in Hs.
    by rewrite Hs, strip_prefix_app in E.
  - destruct (strip_prefix sep (String c s)) eqn:E; [done|].
    destruct (find sep s) as [[pre post]|] eqn:F; [done|].
    intros _ (a & b & Hs). destruct a as [|c' a].
    + rewrite append_nil_l in Hs. by rewrite Hs, strip_prefix_app in E.
    + rewrite append_String in Hs. injection Hs as <- ->.
      apply IH; [done|]. by exists a, b.
Qed.

Lemma find_None_iff sep s : find sep s = None ↔ ¬ occurs sep s.
Proof.
  split; [apply find_None_occurs|].
  intros Hno. destruct (find sep s) as [[pre post]|] eqn:F; [|done].
  destruct Hno. exists pre, post. by apply find_Some.
Qed.

(** Nothing stands before the leftmost occurrence but text without the
    separator. *)
Lemma find_pre_free sep s pre post :
  sep ≠ "" → find sep s = Some (pre, post) → ¬ occurs sep pre.
Proof.
  intros Hsep. revert pre. induction s as [|c s IH]; intros pre; cbn [find].
  - destruct (strip_prefix sep "") eqn:E; [|done].
    intros [= <- <-] (a & b & Hs). destruct a; [|done]. by destruct sep.
  - destruct (strip_prefix sep (String c s)) eqn:E.
    + intros [= <- <-] (a & b & Hs). destruct a; [|done]. by destruct sep.
    + destruct (find sep s) as [[pre' post']|] eqn:F; [|done].
      intros [= <- <-] (a & b & Hs). destruct a as [|c' a].
      * rewrite append_nil_l in Hs. apply find_Some in F.
        assert (String c s = sep +:+ (b +:+ sep +:+ post')) as Hcs.
        { rewrite F, <-append_String, Hs. by rewrite !append_assoc. }
        by rewrite Hcs, strip_prefix_app in E.
      * rewrite append_String in Hs. injection Hs as <- ->.
        by apply (IH _ eq_refl); exists a, b.
Qed.

Lemma split_pieces_free sep s p :
  sep ≠ "" → p ∈ split sep s → ¬ occurs sep p.
Proof.
  intros Hsep. funelim (split sep s); try done.
  - intros [->|Hp]%elem_of_cons; [by eapply find_pre_free|]. auto.
  - intros ->%list_elem_of_singleton. by apply find_None_iff.
Qed.

Lemma occurs_trans x p s : occurs x p → occurs p s → occurs x s.
Proof.
  intros (a & b & ->) (a' & b' & ->). exists (a' +:+ a), (b +:+ b').
  by rewrite !append_assoc.
Qed.

(** The pieces are parts of the string. *)
Lemma split_pieces_occur sep s p : p ∈ split sep s → occurs p s.
Proof.
  funelim (split sep s).
  - intros ->%list_elem_of_singleton. exists "", "". by rewrite append_nil_r.
  - pose proof (find_Some _ _ _ _ e) as Hs. intros [->|Hp]%elem_of_cons.
    + exists "", (String c sep' +:+ post). by rewrite append_nil_l.
    + destruct (H _ Hp) as (a & b & Hpost).
      exists (pre +:+ String c sep' +:+ a), b.
      by rewrite Hs, Hpost, !append_assoc.
  - intros ->%list_elem_of_singleton. exists "", "". by rewrite append_nil_r.
Qed.

Lemma TAB_nonempty : TAB ≠ "".
Proof. done. Qed.

Lemma BAR_nonempty : BAR ≠ "".
Proof. done. Qed.

(** X1.  In a record that the constructor builds, the name and the
    descriptor hold no tab, and no gene and no phenotype holds a tab or the
    separator [" | "]; the record has at least one gene and one phenotype. *)
Theorem init_fields_separator_free line m :
  DictyMutant_init line = Ok m →
  ¬ occurs TAB (name m) ∧ ¬ occurs TAB (descriptor m) ∧
  genes m ≠ [] ∧ phenotypes m ≠ [] ∧
  (∀ g, g ∈ genes m → ¬ occurs BAR g ∧ ¬ occurs TAB g) ∧
  (∀ p, p ∈ phenotypes m → ¬ occurs BAR p ∧ ¬ occurs TAB p).
Proof.
  intros (f0 & f1 & f2 & f3 & rest & Hline & ->)%DictyMutant_init_Ok. cbn.
  assert (∀ f, f ∈ split TAB line → ¬ occurs TAB f) as Hfree
    by (intros f; apply split_pieces_free, TAB_nonempty).
  rewrite Hline in Hfree.
  assert (∀ f piece, f ∈ f0 :: f1 :: f2 :: f3 :: rest → piece ∈ split BAR f →
            ¬ occurs BAR piece ∧ ¬ occurs TAB piece) as Hpiece.
  { intros f piece Hf Hp. split; [by eapply split_pieces_free, Hp|].
    intros Ht. apply (Hfree f Hf). eapply occurs_trans; [done|].
    by eapply split_pieces_occur. }
  repeat split; try apply split_nonempty.
  - apply Hfree. by left.
  - apply Hfree. by right; left.
  - eapply (Hpiece f2); [|done]. by right; right; left.
  - eapply (Hpiece f2); [|done]. by right; right; left.
  - eapply (Hpiece f3); [|done]. by right; right; right; left.
  - eapply (Hpiece f3); [|done]. by right; right; right; left.
Qed.

(** X2.  A line that parses is made of its record: the name, the descriptor,
    the genes joined by [" | "], the phenotypes joined by [" | "], then the
    fields that stand after the fourth, all joined by tabs. *)
Theorem init_line_roundtrip line m :
  DictyMutant_init line = Ok m →
  join TAB ([name m; descriptor m; join BAR (genes m); join BAR (phenotypes m)]
            ++ drop 4 (split TAB line))%list = line.
Proof.
  intros (f0 & f1 & f2 & f3 & rest & Hline & ->)%DictyMutant_init_Ok.
  cbn [name descriptor genes phenotypes]. rewrite !join_split.
  rewrite <-(join_split TAB line) at 2. by rewrite Hline.
Qed.

(** [split] by its leftmost cut. *)
Lemma split_leftmost sep s :
  sep ≠ "" →
  split sep s = match find sep s with
                | Some (pre, post) => pre :: split sep post
                | None => [s]
                end.
Proof. intros Hsep. funelim (split sep s); [done|by rewrite e..]. Qed.

(** A one-character separator is found where it first stands. *)
Lemma find_char t pre post :
  ¬ occurs (String t "") pre →
  find (String t "") (pre +:+ String t "" +:+ post) = Some (pre, post).
Proof.
  induction pre as [|c pre IH]; intros Hfree.
  - rewrite append_nil_l, append_String, append_nil_l. cbn [find strip_prefix].
    by rewrite decide_True.
  - assert (t ≠ c) as Hne.
    { intros ->. apply Hfree. by exists "", pre. }
    rewrite append_String. cbn [find strip_prefix]. rewrite decide_False by done.
    rewrite IH; [done|].
    intros (a & b & ->). apply Hfree. by exists (String c a), b.
Qed.

Lemma split_char_cons t pre post :
  ¬ occurs (String t "") pre →
  split (String t "") (pre +:+ String t "" +:+ post) = pre :: split (String t "") post.
Proof. intros Hfree. by rewrite split_leftmost, find_char. Qed.

(** X3.  A line made of four fields without tabs parses into these fields:
    the record has the first as its name, the second as its descriptor, the
    pieces of the third as its genes and the pieces of the fourth as its
    phenotypes, and its five flags are false. *)
Theorem init_entry id desc gs ps :
  ¬ occurs TAB id → ¬ occurs TAB desc → ¬ occurs TAB gs → ¬ occurs TAB ps →
  DictyMutant_init (entry id desc gs ps) =
    Ok (mkDictyMutant id desc (split BAR gs) (split BAR ps)
          false false false false false).
Proof.
  intros Hid Hdesc Hgs Hps. apply DictyMutant_init_fields with (rest := []).
  unfold entry, TAB in *.
  rewrite !split_char_cons by done.
  by rewrite split_absent by (intros a b ->; apply Hps; by exists a, b).
Qed.

(** ** When the merge succeeds *)

Lemma DictyMutant_init_is_Ok line :
  (∃ m, DictyMutant_init line = Ok m) ↔ (4 ≤ length (split TAB line))%nat.
Proof.
  split.
  - intros [m (f0 & f1 & f2 & f3 & rest & -> & _)%DictyMutant_init_Ok]. cbn. lia.
  - destruct (split TAB line) as [|f0 [|f1 [|f2 [|f3 rest]]]] eqn:E; cbn; try lia.
    intros _. eexists. by eapply DictyMutant_init_fields.
Qed.

Lemma comprehension_total {A B} (f : A → result B) l :
  Forall (λ x, ∃ y, f x = Ok y) l → ∃ ys, comprehension f l = Ok ys.
Proof.
  induction 1 as [|x l [y Hy] _ [ys Hys]]; [by exists []|].
  exists (y :: ys). cbn. by rewrite Hy, Hys.
Qed.

Lemma the_names_is_Ok lines :
  (∃ X, DictyMutants.the_names lines = Ok X) ↔
  Forall (λ line, (4 ≤ length (split TAB line))%nat) lines.
Proof.
  split.
  - intros [X [Hall _]%the_names_Ok]. apply Forall_forall. intros line Hline.
    by apply DictyMutant_init_is_Ok, Hall.
  - intros Hall. unfold DictyMutants.the_names.
    destruct (comprehension_total
      (λ line, m ← DictyMutant_init line; Ok (name m)) lines) as [l Hl].
    { eapply Forall_impl; [done|]. intros line [m Hm]%DictyMutant_init_is_Ok.
      exists (name m). by rewrite Hm. }
    rewrite Hl. by eexists.
Qed.

Section merge_outcome.
Context `{DictOrder}.
Variables all_mutants null_mutants overexp_mutants multiple_mutants
  develop_mutants other_mutants : list string.

Local Abbreviation download :=
  (DictyMutants.download_mutants all_mutants null_mutants overexp_mutants
     multiple_mutants develop_mutants other_mutants).
Local Abbreviation lines :=
  (all_mutants ++ null_mutants ++ overexp_mutants ++ multiple_mutants
   ++ develop_mutants ++ other_mutants)%list.

Lemma download_mutants_is_Ok :
  (∃ s, download = Ok s) ↔
  Forall (λ line, (4 ≤ length (split TAB line))%nat) lines.
Proof.
  rewrite !Forall_app. split.
  - intros [s (l & ns & os & ms & ds & ots & Hl & Hn & Ho & Hm & Hd & Ht & _)
      %download_mutants_Ok].
    repeat split; try (apply the_names_is_Ok; by eexists).
    apply comprehension_Ok in Hl. apply Forall_forall. intros line Hline.
    apply list_elem_of_lookup in Hline as [i Hi].
    destruct (Forall2_lookup_l _ _ _ _ _ Hl Hi) as (m & _ & Hm').
    apply DictyMutant_init_is_Ok. by exists m.
  - intros (Ha & [ns Hn]%the_names_is_Ok & [os Ho]%the_names_is_Ok &
            [ms Hm]%the_names_is_Ok & [ds Hd]%the_names_is_Ok &
            [ots Ht]%the_names_is_Ok).
    destruct (comprehension_total DictyMutant_init all_mutants) as [l Hl].
    { eapply Forall_impl; [done|]. intros line. by apply DictyMutant_init_is_Ok. }
    eexists. apply download_mutants_Ok. by exists l, ns, os, ms, ds, ots.
Qed.

(** X4.  The merge builds a store exactly when every line of the six files
    has four tab-separated fields or more; it raises [IndexError], and
    nothing else, exactly when some line of some file has fewer. *)
Theorem download_succeeds_iff :
  ((∃ s, download = Ok s) ↔
     Forall (λ line, (4 ≤ length (split TAB line))%nat) lines) ∧
  (download = Raise IndexError ↔
     Exists (λ line, length (split TAB line) < 4) lines) ∧
  (∀ e, download = Raise e → e = IndexError).
Proof.
  split; [apply download_mutants_is_Ok|]. split; [|apply download_mutants_Raise].
  split.
  - intros Hr.
    destruct (decide (Forall (λ line, (4 ≤ length (split TAB line))%nat) lines))
      as [[s Hs]%download_mutants_is_Ok|Hno]; [congruence|].
    apply not_Forall_Exists in Hno; [|apply _].
    eapply Exists_impl; [done|]. cbn. intros line. lia.
  - intros Hex. destruct download as [s|e] eqn:Hd.
    + assert (∃ s, download = Ok s) as HF%download_mutants_is_Ok by by exists s.
      apply Exists_exists in Hex as (line & Hline & Hshort).
      rewrite Forall_forall in HF. specialize (HF line Hline). lia.
    + by apply download_mutants_Raise in Hd as ->.
Qed.
End merge_outcome.

(** ** What the category files contribute *)

Lemma id_in_the_names lines X :
  DictyMutants.the_names lines = Ok X → ∀ id, id_in id lines ↔ id ∈ X.
Proof. intros [_ HX]%the_names_Ok id. by rewrite HX. Qed.

Lemma the_names_ext lines lines' X :
  DictyMutants.the_names lines = Ok X →
  Forall (λ line, (4 ≤ length (split TAB line))%nat) lines' →
  (∀ id, id_in id lines ↔ id_in id lines') →
  DictyMutants.the_names lines' = Ok X.
Proof.
  intros HX [X' HX']%the_names_is_Ok Hid. rewrite HX'. f_equal.
  apply set_eq. intros id.
  by rewrite <-(id_in_the_names _ _ HX), <-(id_in_the_names _ _ HX'), Hid.
Qed.

(** X5.  The category files count by the ids of their lines only: when two
    families of category files, of well-formed lines, hold the same ids file
    by file, in any order, any number of times and with any other fields,
    the merge builds the same store from them. *)
Theorem download_categories_by_ids `{DictOrder}
    (all_mutants n o m d t n' o' m' d' t' : list string) s :
  DictyMutants.download_mutants all_mutants n o m d t = Ok s →
  Forall (λ line, (4 ≤ length (split TAB line))%nat) (n' ++ o' ++ m' ++ d' ++ t') →
  (∀ id, id_in id n ↔ id_in id n') →
  (∀ id, id_in id o ↔ id_in id o') →
  (∀ id, id_in id m ↔ id_in id m') →
  (∀ id, id_in id d ↔ id_in id d') →
  (∀ id, id_in id t ↔ id_in id t') →
  DictyMutants.download_mutants all_mutants n' o' m' d' t' = Ok s.
Proof.
  intros (l & ns & os & ms & ds & ots & Hl & Hn & Ho & Hm & Hd & Ht & ->)
    %download_mutants_Ok HF In Io Im Id It.
  rewrite !Forall_app in HF. destruct HF as (Fn & Fo & Fm & Fd & Ft).
  apply download_mutants_Ok. exists l, ns, os, ms, ds, ots.
  repeat split; try done; by eapply the_names_ext.
Qed.

(** ** From a line of the file to the answers of the accessors *)

Section line_to_accessors.
Context `{DictOrder}.
Variables all_mutants null_mutants overexp_mutants multiple_mutants
  develop_mutants other_mutants : list string.

Local Abbreviation download :=
  (DictyMutants.download_mutants all_mutants null_mutants overexp_mutants
     multiple_mutants develop_mutants other_mutants).

(** The object built from a line, as the store holds it. *)
Lemma download_mutants_line s r line f0 f1 f2 f3 rest :
  download = Ok s →
  all_mutants !! r = Some line →
  split TAB line = f0 :: f1 :: f2 :: f3 :: rest →
  r ∈ keys s ∧
  ∃ m, dict_lookup s r = Some m ∧ name m = f0 ∧ descriptor m = f1 ∧
       genes m = split BAR f2 ∧ phenotypes m = split BAR f3.
Proof.
  intros (l & ns & os & ms & ds & ots & Hl & Hll & Hk & Hlook)
    %download_mutants_lookup Hline Hsplit.
  split.
  - rewrite Hk, elem_of_seq. apply lookup_lt_Some in Hline. lia.
  - apply comprehension_Ok in Hl.
    destruct (Forall2_lookup_l _ _ _ _ _ Hl Hline) as (m0 & Hm0 & Hinit).
    rewrite (DictyMutant_init_fields _ _ _ _ _ _ Hsplit) in Hinit.
    injection Hinit as <-.
    eexists. split; [by rewrite Hlook, Hm0|].
    by destruct (tag_fields ns os ms ds ots
      (mkDictyMutant f0 f1 (split BAR f2) (split BAR f3) false false false false false))
      as (-> & -> & -> & ->).
Qed.

(** X6.  After the merge, the object built from a line of the all-mutants
    file is one of the mutants that [mutants()] returns, and for it
    [mutant_genes] returns the pieces of the third field of the line and
    [mutant_phenotypes] the pieces of the fourth. *)
Theorem download_then_read s r line f0 f1 f2 f3 rest :
  download = Ok s →
  all_mutants !! r = Some line →
  split TAB line = f0 :: f1 :: f2 :: f3 :: rest →
  r ∈ DictyMutants.mutants s ∧
  DictyMutants.mutant_genes s (VObj r) = Ok (split BAR f2) ∧
  DictyMutants.mutant_phenotypes s (VObj r) = Ok (split BAR f3).
Proof.
  intros Hd Hline Hsplit.
  destruct (download_mutants_line _ _ _ _ _ _ _ _ Hd Hline Hsplit)
    as (Hr & m & Hm & _ & _ & Hg & Hp).
  split; [done|].
  unfold DictyMutants.mutant_genes, DictyMutants.mutant_phenotypes.
  cbn [getitem]. rewrite Hm. cbn. by rewrite Hg, Hp.
Qed.

(** X7.  After the merge, the object built from a line of the all-mutants
    file stands in the gene index under the pieces of the third field of the
    line and under nothing else, and in the phenotype index under the pieces
    of the fourth; a line with an empty third (fourth) field puts its object
    under the empty string. *)
Theorem download_then_index s r line f0 f1 f2 f3 rest :
  download = Ok s →
  all_mutants !! r = Some line →
  split TAB line = f0 :: f1 :: f2 :: f3 :: rest →
  ∃ dgm dpm,
    DictyMutants.gene_mutants s = Ok dgm ∧
    DictyMutants.phenotype_mutants s = Ok dpm ∧
    (∀ g, r ∈ defaultdict_get dgm g ↔ g ∈ split BAR f2) ∧
    (∀ p, r ∈ defaultdict_get dpm p ↔ p ∈ split BAR f3) ∧
    (f2 = "" → r ∈ defaultdict_get dgm "") ∧
    (f3 = "" → r ∈ defaultdict_get dpm "").
Proof.
  intros Hd Hline Hsplit.
  destruct (download_mutants_line _ _ _ _ _ _ _ _ Hd Hline Hsplit)
    as (Hr & m & Hm & _ & _ & Hg & Hp).
  destruct (gene_mutants_spec s) as (dgm & Hdgm & Hgi).
  destruct (phenotype_mutants_spec s) as (dpm & Hdpm & Hpi).
  exists dgm, dpm. do 2 (split; [done|]).
  assert (∀ g, r ∈ defaultdict_get dgm g ↔ g ∈ split BAR f2) as Hgs.
  { intros g. rewrite Hgi, <-Hg. split; [|by exists m].
    intros (m' & Hm' & ?). rewrite Hm in Hm'. by injection Hm' as <-. }
  assert (∀ p, r ∈ defaultdict_get dpm p ↔ p ∈ split BAR f3) as Hps.
  { intros p. rewrite Hpi, <-Hp. split; [|by exists m].
    intros (m' & Hm' & ?). rewrite Hm in Hm'. by injection Hm' as <-. }
  do 2 (split; [done|]). split.
  - intros ->. apply Hgs. vm_compute. apply list_elem_of_here.
  - intros ->. apply Hps. vm_compute. apply list_elem_of_here.
Qed.
End line_to_accessors.

(** X8.  [mutant_genes] and [mutant_phenotypes] return a list exactly for
    the keys of the store, the objects that [mutants()] returns; for
    anything else the only exception they raise is [KeyError]. *)
Theorem mutant_accessors_Ok_iff (s : pydict) (k : value) :
  ((∃ gs, DictyMutants.mutant_genes s k = Ok gs) ↔
     ∃ r, k = VObj r ∧ r ∈ DictyMutants.mutants s) ∧
  ((∃ ps, DictyMutants.mutant_phenotypes s k = Ok ps) ↔
     ∃ r, k = VObj r ∧ r ∈ DictyMutants.mutants s) ∧
  (∀ e, DictyMutants.mutant_genes s k = Raise e → e = KeyError) ∧
  (∀ e, DictyMutants.mutant_phenotypes s k = Raise e → e = KeyError).
Proof.
  unfold DictyMutants.mutant_genes, DictyMutants.mutant_phenotypes,
    DictyMutants.mutants.
  destruct (getitem s k) as [m|e] eqn:Hg; cbn.
  - apply getitem_Ok in Hg as (r & -> & Hm%dict_lookup_elem_of).
    assert (r ∈ keys s) by (apply list_elem_of_fmap; by exists (r, m)).
    repeat split; try done; intros _; eauto.
  - apply getitem_Raise in Hg as [-> Hk].
    repeat split; try (by intros [? ?]); try (by intros ? [= <-]);
      intros (r & Hr & ?); by destruct (Hk r Hr).
Qed.

(** ** The keys of the indices *)

Lemma entries_inhabited_add dgm key mutant :
  entries_inhabited dgm → entries_inhabited (defaultdict_add dgm key mutant).
Proof.
  intros Hdgm g X. unfold defaultdict_add. destruct (decide (g = key)) as [->|Hne].
  - rewrite lookup_insert_eq. intros [= <-] Hempty.
    apply (not_elem_of_empty (C := gset ref) mutant). rewrite <-Hempty.
    apply elem_of_union_r. by apply elem_of_singleton.
  - rewrite lookup_insert_ne by done. apply Hdgm.
Qed.

Lemma entries_inhabited_fold_add dgm mutant keys :
  entries_inhabited dgm →
  entries_inhabited (foldl (λ dgm key, defaultdict_add dgm key mutant) dgm keys).
Proof.
  revert dgm; induction keys as [|key keys IH]; intros dgm Hdgm; cbn; [done|].
  by apply IH, entries_inhabited_add.
Qed.

Lemma entries_inhabited_fold_pairs dgm (pairs : list (ref * list string)) :
  entries_inhabited dgm →
  entries_inhabited
    (foldl (λ dgm '(mutant, keys),
            foldl (λ dgm key, defaultdict_add dgm key mutant) dgm keys)
       dgm pairs).
Proof.
  revert dgm; induction pairs as [|[mutant keys] pairs IH]; intros dgm Hdgm; cbn;
    [done|].
  by apply IH, entries_inhabited_fold_add.
Qed.

Lemma entries_inhabited_is_Some dgm g :
  entries_inhabited dgm →
  is_Some (dgm !! g) ↔ ∃ r, r ∈ defaultdict_get dgm g.
Proof.
  intros Hdgm. unfold defaultdict_get. destruct (dgm !! g) as [X|] eqn:E; cbn.
  - split; [|by eexists]. intros _. apply set_choose_L. by eapply Hdgm.
  - split; [by intros [? ?]|]. by intros [r ?%elem_of_empty].
Qed.

Lemma gene_mutants_inhabited (s : pydict) dgm :
  DictyMutants.gene_mutants s = Ok dgm → entries_inhabited dgm.
Proof.
  unfold DictyMutants.gene_mutants.
  rewrite (comprehension_fmap _ (λ r, (r, read s genes r)))
    by (intros r Hr; by rewrite mutant_genes_key).
  cbn. intros [= <-]. by apply entries_inhabited_fold_pairs.
Qed.

Lemma phenotype_mutants_inhabited (s : pydict) dpm :
  DictyMutants.phenotype_mutants s = Ok dpm → entries_inhabited dpm.
Proof.
  unfold DictyMutants.phenotype_mutants.
  rewrite (comprehension_fmap _ (λ r, (r, read s phenotypes r)))
    by (intros r Hr; by rewrite mutant_phenotypes_key).
  cbn. intros [= <-]. by apply entries_inhabited_fold_pairs.
Qed.

Lemma genes_elem_of (s : pydict) :
  ∃ gs, DictyMutants.genes s = Ok gs ∧
    ∀ g, g ∈ gs ↔ ∃ r m, dict_lookup s r = Some m ∧ g ∈ genes m.
Proof.
  unfold DictyMutants.genes.
  rewrite (comprehension_fmap _ (read s genes)) by apply mutant_genes_key.
  cbn. eexists. split; [done|]. intros g.
  rewrite (proj1 (sorted_spec _)), elem_of_list_to_set, reduce_add_concat.
  apply elem_of_read_keys.
Qed.

Lemma phenotypes_elem_of (s : pydict) :
  ∃ ps, DictyMutants.phenotypes s = Ok ps ∧
    ∀ p, p ∈ ps ↔ ∃ r m, dict_lookup s r = Some m ∧ p ∈ phenotypes m.
Proof.
  unfold DictyMutants.phenotypes.
  rewrite (comprehension_fmap _ (read s phenotypes)) by apply mutant_phenotypes_key.
  cbn. eexists. split; [done|]. intros g.
  rewrite (proj1 (sorted_spec _)), elem_of_list_to_set, reduce_add_concat.
  apply elem_of_read_keys.
Qed.

(** X9.  The genes under which [gene_mutants()] has an entry are the genes
    that [genes()] returns, and no entry is an empty set; the same holds of
    [phenotype_mutants()] and [phenotypes()]. *)
Theorem index_keys_are_genes (s : pydict) :
  (∃ dgm gs, DictyMutants.gene_mutants s = Ok dgm ∧ DictyMutants.genes s = Ok gs ∧
     (∀ g, is_Some (dgm !! g) ↔ g ∈ gs) ∧
     (∀ g X, dgm !! g = Some X → X ≠ ∅)) ∧
  (∃ dpm ps, DictyMutants.phenotype_mutants s = Ok dpm ∧
     DictyMutants.phenotypes s = Ok ps ∧
     (∀ p, is_Some (dpm !! p) ↔ p ∈ ps) ∧
     (∀ p X, dpm !! p = Some X → X ≠ ∅)).
Proof.
  split.
  - destruct (gene_mutants_spec s) as (dgm & Hdgm & Hi).
    destruct (genes_elem_of s) as (gs & Hgs & Hg).
    pose proof (gene_mutants_inhabited _ _ Hdgm) as Hne.
    exists dgm, gs. do 2 (split; [done|]). split; [|done].
    intros g. rewrite entries_inhabited_is_Some, Hg by done.
    split; [intros (r & (m & ? & ?)%Hi); by exists r, m|].
    intros (r & m & ? & ?). exists r. apply Hi. by exists m.
  - destruct (phenotype_mutants_spec s) as (dpm & Hdpm & Hi).
    destruct (phenotypes_elem_of s) as (ps & Hps & Hp).
    pose proof (phenotype_mutants_inhabited _ _ Hdpm) as Hne.
    exists dpm, ps. do 2 (split; [done|]). split; [|done].
    intros p. rewrite entries_inhabited_is_Some, Hp by done.
    split; [intros (r & (m & ? & ?)%Hi); by exists r, m|].
    intros (r & m & ? & ?). exists r. apply Hi. by exists m.
Qed.

(** ** The order of the table does not show in the answers *)

Lemma dict_lookup_perm (s s' : pydict) r :
  s ≡ₚ s' → NoDup (keys s) → dict_lookup s r = dict_lookup s' r.
Proof.
  intros Hp Hnd.
  assert (NoDup (keys s')) as Hnd' by (unfold keys in *; by rewrite <-Hp).
  destruct (dict_lookup s r) as [m|] eqn:E; symmetry.
  - apply dict_lookup_Some; [done|]. rewrite <-Hp. by apply dict_lookup_elem_of.
  - apply dict_lookup_None. apply dict_lookup_None in E.
    unfold keys in *. by rewrite <-Hp.
Qed.

Lemma index_ext (dgm dgm' : gmap string (gset ref)) :
  entries_inhabited dgm → entries_inhabited dgm' →
  (∀ g r, r ∈ defaultdict_get dgm g ↔ r ∈ defaultdict_get dgm' g) →
  dgm = dgm'.
Proof.
  intros Hne Hne' Hiff. apply map_eq. intros g.
  pose proof (entries_inhabited_is_Some dgm g Hne) as Hs.
  pose proof (entries_inhabited_is_Some dgm' g Hne') as Hs'.
  specialize (Hiff g). unfold defaultdict_get in *.
  destruct (dgm !! g) as [X|] eqn:E, (dgm' !! g) as [X'|] eqn:E'; cbn in *.
  - f_equal. by apply set_eq.
  - destruct Hs as [[r Hr] _]; [done|]. apply Hiff in Hr. by apply elem_of_empty in Hr.
  - destruct Hs' as [[r Hr] _]; [done|]. apply Hiff in Hr. by apply elem_of_empty in Hr.
  - done.
Qed.

Lemma genes_eq (s : pydict) :
  DictyMutants.genes s = Ok (sorted (list_to_set (mjoin (read s genes <$> keys s)))).
Proof.
  unfold DictyMutants.genes.
  rewrite (comprehension_fmap _ (read s genes)) by apply mutant_genes_key.
  cbn. by rewrite reduce_add_concat.
Qed.

Lemma phenotypes_eq (s : pydict) :
  DictyMutants.phenotypes s =
  Ok (sorted (list_to_set (mjoin (read s phenotypes <$> keys s)))).
Proof.
  unfold DictyMutants.phenotypes.
  rewrite (comprehension_fmap _ (read s phenotypes)) by apply mutant_phenotypes_key.
  cbn. by rewrite reduce_add_concat.
Qed.

(** Two stores with the same entries give the same answers. *)
Lemma accessors_perm (s s' : pydict) :
  s ≡ₚ s' → NoDup (keys s) →
  (∀ k, getitem s k = getitem s' k) ∧
  DictyMutants.genes s = DictyMutants.genes s' ∧
  DictyMutants.phenotypes s = DictyMutants.phenotypes s' ∧
  DictyMutants.gene_mutants s = DictyMutants.gene_mutants s' ∧
  DictyMutants.phenotype_mutants s = DictyMutants.phenotype_mutants s'.
Proof.
  intros Hp Hnd.
  assert (∀ r, dict_lookup s r = dict_lookup s' r) as Hlook
    by (intros r; by apply dict_lookup_perm).
  assert (∀ (field : DictyMutant → list string) (x : string),
            (∃ r m, dict_lookup s r = Some m ∧ x ∈ field m) ↔
                     (∃ r m, dict_lookup s' r = Some m ∧ x ∈ field m)) as Hfield.
  { intros field x. split; intros (r & m & Hm & Hx); exists r, m;
      (split; [|done]); specialize (Hlook r); congruence. }
  split; [|split; [|split; [|split]]].
  - intros [r|str]; cbn; [|done]. by rewrite Hlook.
  - rewrite !genes_eq. do 2 f_equal. apply set_eq. intros g.
    by rewrite !elem_of_list_to_set, !elem_of_read_keys.
  - rewrite !phenotypes_eq. do 2 f_equal. apply set_eq. intros g.
    by rewrite !elem_of_list_to_set, !elem_of_read_keys.
  - destruct (gene_mutants_spec s) as (dgm & Hd & Hi).
    destruct (gene_mutants_spec s') as (dgm' & Hd' & Hi').
    rewrite Hd, Hd'. f_equal.
    apply index_ext; [by eapply gene_mutants_inhabited..|].
    intros g r. rewrite Hi, Hi'. by rewrite Hlook.
  - destruct (phenotype_mutants_spec s) as (dpm & Hd & Hi).
    destruct (phenotype_mutants_spec s') as (dpm' & Hd' & Hi').
    rewrite Hd, Hd'. f_equal.
    apply index_ext; [by eapply phenotype_mutants_inhabited..|].
    intros g r. rewrite Hi, Hi'. by rewrite Hlook.
Qed.

(** X10.  The order in which the interpreter keeps the keys of the dict does
    not show in the answers: two runs of the merge on the same files, under
    any two table orders, build stores with the same entries, on which a
    subscription, [genes()], [phenotypes()], [gene_mutants()] and
    [phenotype_mutants()] return the same. *)
Theorem accessors_order_independent (O1 O2 : DictOrder)
    (all_mutants null_mutants overexp_mutants multiple_mutants
     develop_mutants other_mutants : list string) s1 s2 :
  @DictyMutants.download_mutants O1 all_mutants null_mutants overexp_mutants
    multiple_mutants develop_mutants other_mutants = Ok s1 →
  @DictyMutants.download_mutants O2 all_mutants null_mutants overexp_mutants
    multiple_mutants develop_mutants other_mutants = Ok s2 →
  s1 ≡ₚ s2 ∧
  (∀ k, getitem s1 k = getitem s2 k) ∧
  DictyMutants.genes s1 = DictyMutants.genes s2 ∧
  DictyMutants.phenotypes s1 = DictyMutants.phenotypes s2 ∧
  DictyMutants.gene_mutants s1 = DictyMutants.gene_mutants s2 ∧
  DictyMutants.phenotype_mutants s1 = DictyMutants.phenotype_mutants s2.
Proof.
  intros H1 H2.
  assert (NoDup (keys s1)) as Hnd.
  { destruct (download_mutants_lookup _ _ _ _ _ _ _ H1)
      as (_ & _ & _ & _ & _ & _ & _ & _ & -> & _). apply NoDup_seq. }
  apply download_mutants_Ok in H1
    as (l & ns & os & ms & ds & ots & Hl & Hn & Ho & Hm & Hd & Ht & ->).
  apply download_mutants_Ok in H2
    as (l' & ns' & os' & ms' & ds' & ots' & Hl' & Hn' & Ho' & Hm' & Hd' & Ht' & ->).
  rewrite Hl in Hl'. injection Hl' as <-.
  rewrite Hn in Hn'. injection Hn' as <-.
  rewrite Ho in Ho'. injection Ho' as <-.
  rewrite Hm in Hm'. injection Hm' as <-.
  rewrite Hd in Hd'. injection Hd' as <-.
  rewrite Ht in Ht'. injection Ht' as <-.
  assert (@table_order O1 (imap (λ i x, (i, x)) (DictyMutants.tag ns os ms ds ots <$> l))
          ≡ₚ @table_order O2 (imap (λ i x, (i, x)) (DictyMutants.tag ns os ms ds ots <$> l)))
    as Hp by by rewrite !table_order_perm.
  split; [done|]. by apply accessors_perm.
Qed.

(** ** Reading the lines of a file *)

Lemma has_char_app c s t : has_char c (s +:+ t) = has_char c s || has_char c t.
Proof.
  induction s as [|c' s IH]; [done|].
  rewrite append_String. cbn [has_char]. by rewrite IH, orb_assoc.
Qed.

Lemma has_char_cons_false c c' s :
  has_char c (String c' s) = false ↔ c' ≠ c ∧ has_char c s = false.
Proof.
  cbn [has_char]. rewrite orb_false_iff, bool_decide_eq_false. done.
Qed.

Lemma one_line_cons c s :
  one_line (String c s) ↔ c ≠ LF ∧ c ≠ CR ∧ one_line s.
Proof. unfold one_line. rewrite !has_char_cons_false. intuition. Qed.

Lemma one_line_nil : one_line "".
Proof. done. Qed.

Lemma readline_header header body :
  has_char LF header = false →
  readline (header +:+ String LF body) = (header +:+ String LF "", body).
Proof.
  induction header as [|c header IH].
  - intros _. rewrite !append_nil_l. cbn [readline]. by rewrite decide_True.
  - intros [Hc Hh]%has_char_cons_false. rewrite !append_String. cbn [readline].
    rewrite decide_False by done. by rewrite IH.
Qed.

Lemma readline_no_LF file :
  has_char LF file = false → readline file = (file, "").
Proof.
  induction file as [|c file IH]; [done|].
  intros [Hc Hf]%has_char_cons_false. cbn [readline].
  rewrite decide_False by done. by rewrite IH.
Qed.

Lemma splitlines_cons_char c s :
  c ≠ LF → c ≠ CR →
  splitlines (String c s) =
    match splitlines s with
    | [] => [String c ""]
    | line :: lines => String c line :: lines
    end.
Proof. intros H1 H2. cbn [splitlines]. by rewrite !decide_False. Qed.

Lemma splitlines_line line eol rest :
  one_line line → is_eol eol →
  splitlines (line +:+ eol +:+ rest) = line :: splitlines rest.
Proof.
  intros Hline Heol. induction line as [|c line IH].
  - rewrite append_nil_l. destruct Heol as [->| ->].
    + rewrite append_String, append_nil_l. cbn [splitlines]. by rewrite decide_True.
    + rewrite !append_String, append_nil_l. cbn [splitlines].
      rewrite decide_False by done. by rewrite !decide_True.
  - apply one_line_cons in Hline as (H1 & H2 & Hline).
    rewrite append_String, splitlines_cons_char by done. by rewrite IH.
Qed.

Lemma splitlines_last last :
  one_line last → last ≠ "" → splitlines last = [last].
Proof.
  induction last as [|c last IH]; [done|].
  intros (H1 & H2 & Hlast)%one_line_cons _.
  rewrite splitlines_cons_char by done.
  destruct last as [|c' last']; [done|]. by rewrite IH.
Qed.

Lemma splitlines_unlines eol lines last :
  is_eol eol → Forall one_line lines → one_line last →
  splitlines (unlines eol lines +:+ last) =
    (lines ++ if decide (last = "") then [] else [last])%list.
Proof.
  intros Heol Hlines Hlast. induction Hlines as [|line lines Hline _ IH].
  - cbn. rewrite append_nil_l.
    case_decide as Hl; [by subst|by apply splitlines_last].
  - change (unlines eol (line :: lines)) with (line +:+ eol +:+ unlines eol lines).
    rewrite !append_assoc, splitlines_line by done. by rewrite IH.
Qed.

Lemma splitlines_one_line s : Forall one_line (splitlines s).
Proof.
  remember (String.length s) as n eqn:Hn. revert s Hn.
  induction n as [n IH] using lt_wf_ind. intros [|c s] Hn; [constructor|].
  cbn [splitlines]. cbn in Hn. repeat case_decide; subst.
  - constructor; [done|]. by eapply IH; [|done]; lia.
  - destruct s as [|c' s']; [by repeat constructor|].
    case_decide; (constructor; [done|]); eapply IH; try done; cbn; lia.
  - assert (Forall one_line (splitlines s)) as HF by (eapply IH; [|done]; lia).
    destruct (splitlines s) as [|line lines]; [by repeat constructor; apply one_line_cons|].
    apply Forall_cons in HF as [Hl HF]. constructor; [|done]. by apply one_line_cons.
Qed.

(** X11.  [load_mutants] drops the header, whatever it holds, and returns
    the lines that follow it: for a file made of a header, a line feed, some
    lines that each end with the same line break (a line feed, or a carriage
    return and a line feed), and a last line without line break, it returns
    these lines in order, the last one unless it is empty. *)
Theorem load_mutants_lines header eol lines last :
  has_char LF header = false → is_eol eol →
  Forall one_line lines → one_line last →
  DictyMutants.load_mutants
    (header +:+ String LF "" +:+ unlines eol lines +:+ last)
  = (lines ++ if decide (last = "") then [] else [last])%list.
Proof.
  intros Hh Heol Hlines Hlast. unfold DictyMutants.load_mutants.
  rewrite append_String, append_nil_l, readline_header by done.
  by apply splitlines_unlines.
Qed.

(** X12.  No line that [load_mutants] returns holds a line feed or a
    carriage return. *)
Theorem load_mutants_one_line file line :
  line ∈ DictyMutants.load_mutants file → one_line line.
Proof.
  unfold DictyMutants.load_mutants. destruct (readline file) as [h data].
  intros Hin. by eapply (proj1 (Forall_forall _ _) (splitlines_one_line data)).
Qed.

(** X13.  A file without a line feed (an empty file, a header alone, a file
    whose lines end with carriage returns only) is all header: [load_mutants]
    returns no line. *)
Theorem load_mutants_no_LF file :
  has_char LF file = false → DictyMutants.load_mutants file = [].
Proof.
  intros Hf. unfold DictyMutants.load_mutants. by rewrite readline_no_LF.
Qed.

(** X14.  An empty line after the header of any of the six files (as two
    line breaks in a row leave one) makes the merge of the lines loaded from
    the files raise [IndexError]. *)
Theorem blank_line_aborts `{DictOrder}
    (all_file null_file overexp_file multiple_file develop_file other_file : string) :
  "" ∈ (DictyMutants.load_mutants all_file ++ DictyMutants.load_mutants null_file
        ++ DictyMutants.load_mutants overexp_file
        ++ DictyMutants.load_mutants multiple_file
        ++ DictyMutants.load_mutants develop_file
        ++ DictyMutants.load_mutants other_file)%list →
  DictyMutants.download_mutants
    (DictyMutants.load_mutants all_file) (DictyMutants.load_mutants null_file)
    (DictyMutants.load_mutants overexp_file) (DictyMutants.load_mutants multiple_file)
    (DictyMutants.load_mutants develop_file) (DictyMutants.load_mutants other_file)
  = Raise IndexError.
Proof.
  intros Hblank.
  match goal with |- ?d = _ => destruct d as [s|e] eqn:Hd end.
  - assert (Forall (λ line, (4 ≤ length (split TAB line))%nat)
              (DictyMutants.load_mutants all_file ++ DictyMutants.load_mutants null_file
               ++ DictyMutants.load_mutants overexp_file
               ++ DictyMutants.load_mutants multiple_file
               ++ DictyMutants.load_mutants develop_file
               ++ DictyMutants.load_mutants other_file)%list) as HF.
    { apply download_mutants_is_Ok. by exists s. }
    rewrite Forall_forall in HF. specialize (HF "" Hblank).
    vm_compute in HF. lia.
  - by apply download_mutants_Raise in Hd as ->.
Qed.

(** ** Concrete runs of the further properties *)

Lemma init_fields_separator_free_witness :
  ¬ occurs TAB (name mutant_G02) ∧ ¬ occurs TAB (descriptor mutant_G02) ∧
  genes mutant_G02 ≠ [] ∧ phenotypes mutant_G02 ≠ [] ∧
  (∀ g, g ∈ genes mutant_G02 → ¬ occurs BAR g ∧ ¬ occurs TAB g) ∧
  (∀ p, p ∈ phenotypes mutant_G02 → ¬ occurs BAR p ∧ ¬ occurs TAB p).
Proof.
  apply (init_fields_separator_free line_G02 mutant_G02).
  vm_compute. reflexivity.
Defined.

Lemma init_line_roundtrip_witness :
  join TAB ([name mutant_G02; descriptor mutant_G02;
             join BAR (genes mutant_G02); join BAR (phenotypes mutant_G02)]
            ++ drop 4 (split TAB line_G02_more))%list = line_G02_more.
Proof.
  apply (init_line_roundtrip line_G02_more mutant_G02).
  vm_compute. reflexivity.
Defined.

Lemma init_entry_witness :
  DictyMutant_init (entry "DDB_G02" "bar" "cbfA | amiB" "") =
    Ok (mkDictyMutant "DDB_G02" "bar" (split BAR "cbfA | amiB") (split BAR "")
          false false false false false).
Proof.
  apply (init_entry "DDB_G02" "bar" "cbfA | amiB" "");
    apply find_None_iff; vm_compute; reflexivity.
Defined.

Lemma download_categories_by_ids_witness :
  @DictyMutants.download_mutants insertion_order
    [line_G01; line_G02] [line_G01_copy; line_G01] [] [] [] [line_G99; line_G99]
  = Ok store_ex.
Proof.
  apply (@download_categories_by_ids insertion_order
           [line_G01; line_G02] [line_G01] [] [] [] [line_G99]
           [line_G01_copy; line_G01] [] [] [] [line_G99; line_G99]).
  - vm_compute. reflexivity.
  - cbn. repeat (apply Forall_cons; split; [vm_compute; lia|]). exact (Forall_nil_2 _).
  - intros id.
    rewrite (id_in_the_names [line_G01] {[ "DDB_G01" ]}),
      (id_in_the_names [line_G01_copy; line_G01] {[ "DDB_G01" ]});
      [reflexivity|vm_compute; reflexivity..].
  - reflexivity.
  - reflexivity.
  - reflexivity.
  - intros id.
    rewrite (id_in_the_names [line_G99] {[ "DDB_G99" ]}),
      (id_in_the_names [line_G99; line_G99] {[ "DDB_G99" ]});
      [reflexivity|vm_compute; reflexivity..].
Defined.

Lemma download_then_read_witness :
  1 ∈ DictyMutants.mutants store_ex ∧
  DictyMutants.mutant_genes store_ex (VObj 1) = Ok (split BAR "cbfA | amiB") ∧
  DictyMutants.mutant_phenotypes store_ex (VObj 1) = Ok (split BAR "").
Proof.
  apply (@download_then_read insertion_order
           [line_G01; line_G02] [line_G01] [] [] [] [line_G99]
           store_ex 1 line_G02 "DDB_G02" "bar" "cbfA | amiB" "" []).
  - vm_compute. reflexivity.
  - reflexivity.
  - vm_compute. reflexivity.
Defined.

Lemma download_then_index_witness :
  ∃ dgm dpm,
    DictyMutants.gene_mutants store_ex = Ok dgm ∧
    DictyMutants.phenotype_mutants store_ex = Ok dpm ∧
    (∀ g, 1 ∈ defaultdict_get dgm g ↔ g ∈ split BAR "cbfA | amiB") ∧
    (∀ p, 1 ∈ defaultdict_get dpm p ↔ p ∈ split BAR "") ∧
    ("cbfA | amiB" = "" → 1 ∈ defaultdict_get dgm "") ∧
    ("" = "" → 1 ∈ defaultdict_get dpm "").
Proof.
  apply (@download_then_index insertion_order
           [line_G01; line_G02] [line_G01] [] [] [] [line_G99]
           store_ex 1 line_G02 "DDB_G02" "bar" "cbfA | amiB" "" []).
  - vm_compute. reflexivity.
  - reflexivity.
  - vm_compute. reflexivity.
Defined.

Lemma accessors_order_independent_witness :
  store_ex ≡ₚ reverse store_ex ∧
  (∀ k, getitem store_ex k = getitem (reverse store_ex) k) ∧
  DictyMutants.genes store_ex = DictyMutants.genes (reverse store_ex) ∧
  DictyMutants.phenotypes store_ex = DictyMutants.phenotypes (reverse store_ex) ∧
  DictyMutants.gene_mutants store_ex = DictyMutants.gene_mutants (reverse store_ex) ∧
  DictyMutants.phenotype_mutants store_ex =
    DictyMutants.phenotype_mutants (reverse store_ex).
Proof.
  apply (accessors_order_independent insertion_order reverse_order
           [line_G01; line_G02] [line_G01] [] [] [] [line_G99]).
  - vm_compute. reflexivity.
  - vm_compute. reflexivity.
Defined.

Lemma load_mutants_lines_witness :
  DictyMutants.load_mutants file_crlf
  = ([line_G01; line_G02] ++ if decide (line_G99 = "") then [] else [line_G99])%list.
Proof.
  apply (load_mutants_lines header_line CRLF [line_G01; line_G02] line_G99).
  - vm_compute. reflexivity.
  - right. reflexivity.
  - repeat (apply Forall_cons; split; [split; vm_compute; reflexivity|]).
    exact (Forall_nil_2 _).
  - split; vm_compute; reflexivity.
Defined.

Lemma load_mutants_one_line_witness : one_line line_G02.
Proof.
  apply (load_mutants_one_line file_crlf line_G02).
  vm_compute. apply list_elem_of_further, list_elem_of_here.
Defined.

Lemma load_mutants_no_LF_witness :
  DictyMutants.load_mutants (header_line +:+ String CR line_G01) = [].
Proof.
  apply (load_mutants_no_LF (header_line +:+ String CR line_G01)).
  vm_compute. reflexivity.
Defined.

Lemma blank_line_aborts_witness :
  @DictyMutants.download_mutants insertion_order
    (DictyMutants.load_mutants file_blank) (DictyMutants.load_mutants file_header)
    (DictyMutants.load_mutants file_header) (DictyMutants.load_mutants file_header)
    (DictyMutants.load_mutants file_header) (DictyMutants.load_mutants file_header)
  = Raise IndexError.
Proof.
  apply (@blank_line_aborts insertion_order
           file_blank file_header file_header file_header file_header file_header).
  vm_compute. apply list_elem_of_further, list_elem_of_here.
Defined.
